(** * matrix-content-scanner: the report pipeline of [src/handlers.js]
    and [src/reporting.js]

    A shallow embedding of the two request handlers and of the reporting
    module behind them ([getReport], [generateReport], [base64sha256] and
    the module-level [resultCache]), together with the parts of the
    JavaScript run time the code leans on: strings as sequences of UTF-16
    code units, [String.prototype.slice], numbers and Number::toString,
    [JSON.stringify], property lookup on a plain object, SHA-256 with
    base64 output, POSIX [path.join] and a small file system. *)

From Stdlib Require Import NArith ZArith Ascii String List Lia.
From stdpp Require Import base decidable option list gmap.

Local Open Scope N_scope.
#[local] Set Warnings "-register-all".

(** ** JavaScript strings *)

(** A JavaScript string is a finite sequence of 16-bit code units;
    [slice], [+] and [length] all count code units. *)
Abbreviation codeunit := N (only parsing).
Abbreviation jsstring := (list N) (only parsing).

(** Literals: the code units of an ASCII literal of the source. *)
Definition str (s : string) : jsstring :=
  map N_of_ascii (list_ascii_of_string s).

(** Literals that hold double quotes are written with single quotes. *)
Definition dq (s : string) : jsstring :=
  map (fun c => if c =? 39 then 34 else c) (str s).

(** A relative index of [slice]/[substring]: negative counts from the end,
    and the result is clamped to [0 .. len]. *)
Definition relative_index (len i : Z) : Z :=
  if (i <? 0)%Z then Z.max (len + i) 0 else Z.min i len.

(** [s.slice(start, end)]; [end] is [None] when the argument is omitted
    (it then defaults to the length). *)
Definition slice {A} (s : list A) (start : Z) (end_ : option Z) : list A :=
  let len := Z.of_nat (length s) in
  let from := relative_index len start in
  let to := match end_ with
            | None => len
            | Some e => relative_index len e
            end in
  if (to <=? from)%Z then []
  else take (Z.to_nat (to - from)) (drop (Z.to_nat from) s).

(** ** UTF-8, as [hash.update(s)] encodes a string argument *)

Abbreviation byte := N (only parsing).

Definition is_lead_surrogate (c : N) : bool := (0xD800 <=? c) && (c <=? 0xDBFF).
Definition is_trail_surrogate (c : N) : bool := (0xDC00 <=? c) && (c <=? 0xDFFF).

Definition utf8_of_codepoint (c : N) : list byte :=
  if c <? 0x80 then [c]
  else if c <? 0x800 then
    [N.lor 0xC0 (N.shiftr c 6); N.lor 0x80 (N.land c 0x3F)]
  else if c <? 0x10000 then
    [N.lor 0xE0 (N.shiftr c 12);
     N.lor 0x80 (N.land (N.shiftr c 6) 0x3F);
     N.lor 0x80 (N.land c 0x3F)]
  else
    [N.lor 0xF0 (N.land (N.shiftr c 18) 0x07);
     N.lor 0x80 (N.land (N.shiftr c 12) 0x3F);
     N.lor 0x80 (N.land (N.shiftr c 6) 0x3F);
     N.lor 0x80 (N.land c 0x3F)].

(** A surrogate pair is one code point; a surrogate on its own is written
    as U+FFFD. *)
Fixpoint utf8_encode (s : jsstring) : list byte :=
  match s with
  | [] => []
  | c :: rest =>
    if is_lead_surrogate c then
      match rest with
      | d :: rest' =>
        if is_trail_surrogate d then
          utf8_of_codepoint (0x10000 + (c - 0xD800) * 0x400 + (d - 0xDC00))
            ++ utf8_encode rest'
        else utf8_of_codepoint 0xFFFD ++ utf8_encode rest
      | [] => utf8_of_codepoint 0xFFFD
      end
    else if is_trail_surrogate c then utf8_of_codepoint 0xFFFD ++ utf8_encode rest
    else utf8_of_codepoint c ++ utf8_encode rest
  end.

(** ** SHA-256 (FIPS 180-4), the digest behind [crypto.createHash('sha256')] *)

Module SHA256.

Definition mask32 (x : N) : N := x mod 2 ^ 32.
Definition add32 (x y : N) : N := mask32 (x + y).
Definition not32 (x : N) : N := N.lxor x 0xFFFFFFFF.
Definition rotr (n x : N) : N :=
  N.lor (N.shiftr x n) (mask32 (N.shiftl x (32 - n))).

Definition Ch (x y z : N) : N := N.lxor (N.land x y) (N.land (not32 x) z).
Definition Maj (x y z : N) : N :=
  N.lxor (N.lxor (N.land x y) (N.land x z)) (N.land y z).
Definition bsig0 (x : N) : N := N.lxor (N.lxor (rotr 2 x) (rotr 13 x)) (rotr 22 x).
Definition bsig1 (x : N) : N := N.lxor (N.lxor (rotr 6 x) (rotr 11 x)) (rotr 25 x).
Definition ssig0 (x : N) : N := N.lxor (N.lxor (rotr 7 x) (rotr 18 x)) (N.shiftr x 3).
Definition ssig1 (x : N) : N := N.lxor (N.lxor (rotr 17 x) (rotr 19 x)) (N.shiftr x 10).

Definition primes64 : list N :=
  [2; 3; 5; 7; 11; 13; 17; 19; 23; 29; 31; 37; 41; 43; 47; 53;
   59; 61; 67; 71; 73; 79; 83; 89; 97; 101; 103; 107; 109; 113; 127; 131;
   137; 139; 149; 151; 157; 163; 167; 173; 179; 181; 191; 193; 197; 199;
   211; 223; 227; 229; 233; 239; 241; 251; 257; 263; 269; 271; 277; 281;
   283; 293; 307; 311].

(** Integer cube root: the largest [r < 2 ^ bits] with [r ^ 3 <= n]. *)
Fixpoint icbrt_from (bits : nat) (n r : N) : N :=
  match bits with
  | O => r
  | S b =>
    let r' := r + 2 ^ N.of_nat b in
    icbrt_from b n (if r' * r' * r' <=? n then r' else r)
  end.
Definition icbrt (n : N) : N := icbrt_from 40 n 0.

(** The round constants are the first 32 bits of the fractional parts of
    the cube roots of the first 64 primes, the initial hash value those
    of the square roots of the first 8. *)
Definition K : list N :=
  Eval vm_compute in map (fun p => mask32 (icbrt (p * 2 ^ 96))) primes64.
Definition H0 : list N :=
  Eval vm_compute in map (fun p => mask32 (N.sqrt (p * 2 ^ 64))) (take 8 primes64).

(** Big-endian bytes of a [w]-byte number. *)
Fixpoint be_bytes (w : nat) (x : N) : list byte :=
  match w with
  | O => []
  | S w' => N.land (N.shiftr x (8 * N.of_nat w')) 0xFF :: be_bytes w' x
  end.

Definition be_word (bs : list byte) : N :=
  fold_left (fun acc b => N.lor (N.shiftl acc 8) (N.land b 0xFF)) bs 0.

(** Padding: a 1 bit, zeros up to 56 mod 64, the bit length on 64 bits. *)
Definition pad (msg : list byte) : list byte :=
  let len := N.of_nat (length msg) in
  let zeros := N.to_nat ((119 - len mod 64) mod 64) in
  msg ++ [0x80] ++ replicate zeros 0 ++ be_bytes 8 (8 * len).

Fixpoint chunks (fuel n : nat) {A} (l : list A) : list (list A) :=
  match fuel with
  | O => []
  | S fuel' =>
    match l with
    | [] => []
    | _ => take n l :: chunks fuel' n (drop n l)
    end
  end.

(** The message schedule, most recent word first while it is built. *)
Fixpoint extend (n : nat) (rev_w : list N) : list N :=
  match n with
  | O => rev_w
  | S n' =>
    let w := fun i => nth i rev_w 0 in
    extend n' (add32 (add32 (ssig1 (w 1%nat)) (w 6%nat))
                     (add32 (ssig0 (w 14%nat)) (w 15%nat)) :: rev_w)
  end.

Definition schedule (block : list byte) : list N :=
  rev (extend 48 (rev (map be_word (chunks 16 4 block)))).

Record regs := Regs { ra : N; rb : N; rc : N; rd : N; re : N; rf : N; rg : N; rh : N }.

Definition round (s : regs) (kw : N * N) : regs :=
  let t1 := add32 (add32 (add32 (add32 (rh s) (bsig1 (re s))) (Ch (re s) (rf s) (rg s)))
                         (fst kw)) (snd kw) in
  let t2 := add32 (bsig0 (ra s)) (Maj (ra s) (rb s) (rc s)) in
  Regs (add32 t1 t2) (ra s) (rb s) (rc s) (add32 (rd s) t1) (re s) (rf s) (rg s).

Definition compress (h : regs) (block : list byte) : regs :=
  let s := fold_left round (combine K (schedule block)) h in
  Regs (add32 (ra h) (ra s)) (add32 (rb h) (rb s)) (add32 (rc h) (rc s))
       (add32 (rd h) (rd s)) (add32 (re h) (re s)) (add32 (rf h) (rf s))
       (add32 (rg h) (rg s)) (add32 (rh h) (rh s)).

Definition init : regs :=
  let h := fun i => nth i H0 0 in
  Regs (h 0%nat) (h 1%nat) (h 2%nat) (h 3%nat) (h 4%nat) (h 5%nat) (h 6%nat) (h 7%nat).

Definition digest_bytes (h : regs) : list byte :=
  be_bytes 4 (ra h) ++ be_bytes 4 (rb h) ++ be_bytes 4 (rc h) ++ be_bytes 4 (rd h)
    ++ be_bytes 4 (re h) ++ be_bytes 4 (rf h) ++ be_bytes 4 (rg h) ++ be_bytes 4 (rh h).

Definition sha256 (msg : list byte) : list byte :=
  let padded := pad msg in
  digest_bytes (fold_left compress (chunks (length padded) 64 padded) init).

End SHA256.

(** ** Base64, the encoding of [hash.digest('base64')] *)

Definition base64_alphabet : jsstring :=
  str "ABCDEFGHIJKLMNOPQRSTUVWXYZabcdefghijklmnopqrstuvwxyz0123456789+/".

Definition base64_char (i : N) : codeunit := nth (N.to_nat i) base64_alphabet 0.

Definition pad_char : codeunit := 61.

Fixpoint base64 (bs : list byte) : jsstring :=
  match bs with
  | [] => []
  | [a] =>
    [base64_char (N.shiftr a 2); base64_char (N.shiftl (N.land a 3) 4);
     pad_char; pad_char]
  | [a; b] =>
    [base64_char (N.shiftr a 2);
     base64_char (N.lor (N.shiftl (N.land a 3) 4) (N.shiftr b 4));
     base64_char (N.shiftl (N.land b 15) 2); pad_char]
  | a :: b :: c :: rest =>
    base64_char (N.shiftr a 2)
    :: base64_char (N.lor (N.shiftl (N.land a 3) 4) (N.shiftr b 4))
    :: base64_char (N.lor (N.shiftl (N.land b 15) 2) (N.shiftr c 6))
    :: base64_char (N.land c 63)
    :: base64 rest
  end.

(** [base64sha256(s)]: hash the UTF-8 bytes of [s], digest as base64. *)
Definition base64sha256 (s : jsstring) : jsstring :=
  base64 (SHA256.sha256 (utf8_encode s)).

Definition hex_of (bs : list N) : list N :=
  flat_map (fun b => [nth (N.to_nat (N.shiftr b 4)) (str "0123456789abcdef") 0;
                      nth (N.to_nat (N.land b 15)) (str "0123456789abcdef") 0]) bs.

(** ** Numbers and Number::toString *)

(** The decimal digits of an integer. *)
Fixpoint decimal_digits (fuel : nat) (n : N) (acc : jsstring) : jsstring :=
  match fuel with
  | O => acc
  | S fuel' =>
    let acc := (48 + n mod 10) :: acc in
    if n <? 10 then acc else decimal_digits fuel' (n / 10) acc
  end.

Definition string_of_Z (z : Z) : jsstring :=
  let n := Z.abs_N z in
  (if (z <? 0)%Z then str "-" else []) ++ decimal_digits (S (N.to_nat (N.log2 n))) n [].

(** A Number is an IEEE 754 binary64 value: [NaN], an infinity, or
    [(-1)^s * m * 2^e] with [m < 2^53] and [-1074 <= e <= 971], where
    [2^52 <= m] unless [e = -1074]; [m = 0] gives the two zeros. *)
Inductive Number :=
| NaN
| Infinity (negative : bool)
| Finite (negative : bool) (m : N) (e : Z).

Definition is_binary64 (x : Number) : bool :=
  match x with
  | NaN | Infinity _ => true
  | Finite _ m e =>
    (m <? 2 ^ 53) && (-1074 <=? e)%Z && (e <=? 971)%Z
    && ((2 ^ 52 <=? m) || (e =? -1074)%Z)
  end.

(** [a * 10^p] compared with [b * 2^q]. *)
Definition compare_scaled (a : N) (p : Z) (b : N) (q : Z) : comparison :=
  (a * 10 ^ Z.to_N p * 2 ^ Z.to_N (- q)) ?= (b * 2 ^ Z.to_N q * 10 ^ Z.to_N (- p)).

(** The [n] with [10^(n-1) <= m * 2^e < 10^n], from an estimate. *)
Fixpoint magnitude_from (fuel : nat) (m : N) (e n : Z) : Z :=
  match fuel with
  | O => n
  | S fuel' =>
    match compare_scaled 1 n m e with
    | Gt =>
      match compare_scaled 1 (n - 1) m e with
      | Gt => magnitude_from fuel' m e (n - 1)
      | _ => n
      end
    | _ => magnitude_from fuel' m e (n + 1)
    end
  end.

Definition magnitude (m : N) (e : Z) : Z :=
  magnitude_from 8 m e (((Z.of_N (N.log2 m) + e) * 1233) / 4096)%Z.

(** Whether the Number value for [s * 10^p] is [m * 2^e]: whether
    [s * 10^p] lies between the midpoints to the two neighbours of
    [m * 2^e], the midpoints included when [m] is even. *)
Definition rounds_to (m : N) (e : Z) (s : N) (p : Z) : bool :=
  let low := if (m =? 2 ^ 52) && (-1074 <? e)%Z then 4 * m - 1 else 4 * m - 2 in
  let high := 4 * m + 2 in
  match compare_scaled s p low (e - 2), compare_scaled s p high (e - 2) with
  | Gt, Lt => true
  | Eq, Lt | Gt, Eq => N.even m
  | _, _ => false
  end.

(** The [n] and [s] of Number::toString: [s * 10^(n-k)] is the decimal
    with the fewest digits [k] whose Number value is [m * 2^e], and of
    two such the one closer to [m * 2^e]. *)
Fixpoint shortest_from (fuel : nat) (m : N) (e n : Z) (k : Z) : Z * N :=
  match fuel with
  | O => (n, 0)
  | S fuel' =>
    let p := (n - k)%Z in
    let lo := (m * 2 ^ Z.to_N e * 10 ^ Z.to_N (- p)) / (2 ^ Z.to_N (- e) * 10 ^ Z.to_N p) in
    let hi := lo + 1 in
    let up :=
      match compare_scaled (lo + hi) p (2 * m) e with
      | Gt => false
      | Lt => true
      | Eq => N.even hi
      end in
    let pick s := if s =? 10 ^ Z.to_N k then ((n + 1)%Z, s / 10) else (n, s) in
    match rounds_to m e lo p, rounds_to m e hi p with
    | true, true => pick (if up then hi else lo)
    | true, false => pick lo
    | false, true => pick hi
    | false, false => shortest_from fuel' m e n (k + 1)
    end
  end.

Definition zeros (n : Z) : jsstring := repeat 48 (Z.to_nat n).

(** Number::toString with radix 10. *)
Definition Number_toString (x : Number) : jsstring :=
  match x with
  | NaN => str "NaN"
  | Infinity negative => (if negative then str "-" else []) ++ str "Infinity"
  | Finite negative m e =>
    if m =? 0 then str "0"
    else
      let '(n, s) := shortest_from 17 m e (magnitude m e) 1 in
      let digits := string_of_Z (Z.of_N s) in
      let k := Z.of_nat (length digits) in
      (if negative then str "-" else [])
        ++ (if (k <=? n)%Z && (n <=? 21)%Z then digits ++ zeros (n - k)
            else if (0 <? n)%Z && (n <=? 21)%Z then
              take (Z.to_nat n) digits ++ str "." ++ drop (Z.to_nat n) digits
            else if (-6 <? n)%Z && (n <=? 0)%Z then str "0." ++ zeros (- n) ++ digits
            else
              take 1 digits
                ++ (if (k =? 1)%Z then [] else str "." ++ drop 1 digits)
                ++ str "e" ++ (if (0 <=? n - 1)%Z then str "+" else str "-")
                ++ string_of_Z (Z.abs (n - 1)))
  end.

(** ** Values of a parsed request body and [JSON.stringify] *)

(** What a parsed JSON body holds: strings, booleans, arrays, objects,
    [null] and numbers; [scanSchema] lets properties it does not name
    pass, with any of these for a value.  An object is the list of its
    own properties in the order the object enumerates them, which is the
    order [JSON.stringify] writes them in: the names that are array
    indices first, in ascending numeric order, then the other names in
    the order the properties were added ([object_of_members] below). *)
Inductive JSValue :=
| JString (s : jsstring)
| JBool (b : bool)
| JArray (items : list JSValue)
| JObject (props : list (jsstring * JSValue))
| JNull
| JNumber (x : Number).

Definition hex_digit (d : N) : codeunit := nth (N.to_nat d) (str "0123456789abcdef") 0.

(** [\uXXXX] with lower-case digits. *)
Definition unicode_escape (c : N) : jsstring :=
  str "\u" ++ [hex_digit (N.land (N.shiftr c 12) 15); hex_digit (N.land (N.shiftr c 8) 15);
               hex_digit (N.land (N.shiftr c 4) 15); hex_digit (N.land c 15)].

Definition escape_codeunit (c : N) : jsstring :=
  if c =? 8 then str "\b"
  else if c =? 9 then str "\t"
  else if c =? 10 then str "\n"
  else if c =? 12 then str "\f"
  else if c =? 13 then str "\r"
  else if c =? 34 then [92; 34]
  else if c =? 92 then [92; 92]
  else if c <? 32 then unicode_escape c
  else [c].

(** The body of QuoteJSONString: the string is read by code points, and a
    surrogate that is not part of a pair is escaped. *)
Fixpoint quote_body (s : jsstring) : jsstring :=
  match s with
  | [] => []
  | c :: rest =>
    if is_lead_surrogate c then
      match rest with
      | d :: rest' =>
        if is_trail_surrogate d then c :: d :: quote_body rest'
        else unicode_escape c ++ quote_body rest
      | [] => unicode_escape c
      end
    else if is_trail_surrogate c then unicode_escape c ++ quote_body rest
    else escape_codeunit c ++ quote_body rest
  end.

Definition quote (s : jsstring) : jsstring := [34] ++ quote_body s ++ [34].

Fixpoint join_with (sep : jsstring) (parts : list jsstring) : jsstring :=
  match parts with
  | [] => []
  | [p] => p
  | p :: ps => p ++ sep ++ join_with sep ps
  end.

(** [JSON.stringify(v)] without indentation. *)
Fixpoint stringify (v : JSValue) : jsstring :=
  match v with
  | JString s => quote s
  | JBool true => str "true"
  | JBool false => str "false"
  | JArray items => str "[" ++ join_with (str ",") (map stringify items) ++ str "]"
  | JObject props =>
    str "{" ++ join_with (str ",")
                 (map (fun kv => match kv with
                                 | (k, x) => quote k ++ str ":" ++ stringify x
                                 end) props)
      ++ str "}"
  | JNull => str "null"
  | JNumber (Finite negative m e) => Number_toString (Finite negative m e)
  | JNumber _ => str "null"
  end.

(** The own property [k] of an object given by its property list. *)
Fixpoint own_property (k : jsstring) (props : list (jsstring * JSValue)) : option JSValue :=
  match props with
  | [] => None
  | (k', v) :: rest => if decide (k' = k) then Some v else own_property k rest
  end.

(** ToBoolean on the values of the model; [None] is [undefined]. *)
Definition truthy (v : option JSValue) : bool :=
  match v with
  | None => false
  | Some (JString s) => negb (bool_decide (s = []))
  | Some (JBool b) => b
  | Some (JArray _) | Some (JObject _) => true
  | Some JNull => false
  | Some (JNumber (Finite _ m _)) => negb (m =? 0)
  | Some (JNumber NaN) => false
  | Some (JNumber (Infinity _)) => true
  end.

(** *** From the members of a JSON text to the properties of the object *)

(** An array index: the canonical decimal name of an integer below
    [2^32 - 1]. *)
Definition array_index (k : jsstring) : option N :=
  let n := fold_left (fun acc c => 10 * acc + (c - 48)) k 0 in
  if bool_decide (string_of_Z (Z.of_N n) = k) && (n <? 4294967295) then Some n else None.

(** A member [k: v] read by [JSON.parse]: it replaces the value of a
    property the object has, which stays where it is, or adds a
    property. *)
Fixpoint define_member (props : list (jsstring * JSValue)) (k : jsstring) (v : JSValue)
  : list (jsstring * JSValue) :=
  match props with
  | [] => [(k, v)]
  | (k', v') :: rest =>
    if decide (k' = k) then (k, v) :: rest else (k', v') :: define_member rest k v
  end.

Fixpoint insert_by_index (i : N) (kv : jsstring * JSValue)
         (sorted : list (N * (jsstring * JSValue))) : list (N * (jsstring * JSValue)) :=
  match sorted with
  | [] => [(i, kv)]
  | (j, kv') :: rest =>
    if i <? j then (i, kv) :: sorted else (j, kv') :: insert_by_index i kv rest
  end.

(** The own properties, in the order they are enumerated in, of the
    object [JSON.parse] makes of the members of an object in a JSON
    text. *)
Definition object_of_members (members : list (jsstring * JSValue))
  : list (jsstring * JSValue) :=
  let added := fold_left (fun props kv => define_member props kv.1 kv.2) members [] in
  let indexed :=
    fold_right (fun kv sorted =>
                  match array_index kv.1 with
                  | Some i => insert_by_index i kv sorted
                  | None => sorted
                  end) [] added in
  map snd indexed ++ filter (fun kv => array_index kv.1 = None) added.

(** ** POSIX paths: [path.sep] and [path.join] *)

Definition path_sep : jsstring := str "/".

Fixpoint split_on (sep : codeunit) (s : jsstring) : list jsstring :=
  match s with
  | [] => [[]]
  | c :: rest =>
    if c =? sep then [] :: split_on sep rest
    else match split_on sep rest with
         | p :: ps => (c :: p) :: ps
         | [] => [[c]]
         end
  end.

(** One segment of [normalizeString]; the segments kept so far are held
    last first.  Empty segments and [.] are dropped, [..] removes the
    segment before it, or is kept when there is none to remove and the
    path is relative. *)
Definition push_segment (allowAboveRoot : bool) (kept : list jsstring) (seg : jsstring)
  : list jsstring :=
  if decide (seg = []) then kept
  else if decide (seg = str ".") then kept
  else if decide (seg = str "..") then
    match kept with
    | top :: below =>
      if decide (top = str "..") then (if allowAboveRoot then seg :: kept else kept)
      else below
    | [] => if allowAboveRoot then [seg] else []
    end
  else seg :: kept.

Definition normalizeString (path : jsstring) (allowAboveRoot : bool) : jsstring :=
  join_with path_sep (rev (fold_left (push_segment allowAboveRoot) (split_on 47 path) [])).

Definition path_normalize (path : jsstring) : jsstring :=
  match path with
  | [] => str "."
  | c :: _ =>
    let isAbsolute := c =? 47 in
    let trailingSeparator := bool_decide (last path = Some 47) in
    let p := normalizeString path (negb isAbsolute) in
    match p with
    | [] => if isAbsolute then str "/" else if trailingSeparator then str "./" else str "."
    | _ =>
      let p := if trailingSeparator then p ++ str "/" else p in
      if isAbsolute then str "/" ++ p else p
    end
  end.

(** [path.join(a, b)]: the non-empty arguments joined by [/], normalised. *)
Definition path_join (a b : jsstring) : jsstring :=
  match a, b with
  | [], [] => str "."
  | [], _ => path_normalize b
  | _, [] => path_normalize a
  | _, _ => path_normalize (a ++ str "/" ++ b)
  end.

(** ** Results and errors *)

Inductive result (E A : Type) :=
| Ok (a : A)
| Err (e : E).
Arguments Ok {E A} a.
Arguments Err {E A} e.

#[global] Instance result_bind {E} : MBind (result E) :=
  fun A B (k : A -> result E B) (r : result E A) =>
    match r with
    | Ok a => k a
    | Err e => Err e
    end.

(** ** The file system under the temporary directory *)

Inductive errno := ENOENT | ENOTDIR | EEXIST | EISDIR | ENOTEMPTY.

(** A file system is the tree below its root directory. *)
Inductive node :=
| File (content : list byte)
| Dir (entries : gmap jsstring node).

Module FS.

(** The directory entries a path names, from the process's working
    directory [cwd] when the path is relative; [..] at the root stays
    at the root.  There are no links, and [x/..] names the directory [x]
    is in, as it does for the kernel when [x] is a directory; where [x]
    is missing or a file the kernel fails instead. *)
Definition resolve (cwd : list jsstring) (path : jsstring) : list jsstring :=
  let start := match path with
               | c :: _ => if c =? 47 then [] else rev cwd
               | [] => rev cwd
               end in
  rev (fold_left (push_segment false) (split_on 47 path) start).

Fixpoint lookup (p : list jsstring) (n : node) : option node :=
  match p with
  | [] => Some n
  | s :: p' =>
    match n with
    | Dir m => match m !! s with
               | Some c => lookup p' c
               | None => None
               end
    | File _ => None
    end
  end.

(** Apply [f] to the entries of the directory at [p]. *)
Fixpoint in_dir (p : list jsstring)
         (f : gmap jsstring node -> result errno (gmap jsstring node)) (n : node)
  : result errno node :=
  match n with
  | File _ => Err ENOTDIR
  | Dir m =>
    match p with
    | [] => m' ← f m; Ok (Dir m')
    | s :: p' =>
      match m !! s with
      | None => Err ENOENT
      | Some c => c' ← in_dir p' f c; Ok (Dir (<[s := c']> m))
      end
    end
  end.

(** An operation on the entry [p] names: on its name within its parent. *)
Definition at_entry (p : list jsstring)
           (f : jsstring -> gmap jsstring node -> result errno (gmap jsstring node))
           (root : node) : result errno node :=
  match last p with
  | None => Err EEXIST
  | Some name => in_dir (removelast p) (f name) root
  end.

Definition mkdir (p : list jsstring) : node -> result errno node :=
  at_entry p (fun name m =>
    match m !! name with
    | Some _ => Err EEXIST
    | None => Ok (<[name := Dir ∅]> m)
    end).

Definition writeFile (p : list jsstring) (content : list byte) : node -> result errno node :=
  at_entry p (fun name m =>
    match m !! name with
    | Some (Dir _) => Err EISDIR
    | _ => Ok (<[name := File content]> m)
    end).

Definition readFile (p : list jsstring) (root : node) : result errno (list byte) :=
  match lookup p root with
  | Some (File content) => Ok content
  | Some (Dir _) => Err EISDIR
  | None => Err ENOENT
  end.

Definition unlink (p : list jsstring) : node -> result errno node :=
  at_entry p (fun name m =>
    match m !! name with
    | Some (File _) => Ok (delete name m)
    | Some (Dir _) => Err EISDIR
    | None => Err ENOENT
    end).

Definition rmdir (p : list jsstring) : node -> result errno node :=
  at_entry p (fun name m =>
    match m !! name with
    | Some (Dir d) =>
      match map_to_list d with
      | [] => Ok (delete name m)
      | _ :: _ => Err ENOTEMPTY
      end
    | Some (File _) => Err ENOTDIR
    | None => Err ENOENT
    end).

End FS.

(** ** Scan results, exceptions and the events of a request *)

(** Modelled from the spec: [execute-cmd.js] is not part of the sources;
    what [executeCommand] resolves to is the verdict of the Scanner
    Invoker, `{clean: bool, info: string, exitCode: int}`.  The record is
    that object, with the [resultSecret] property [generateReport] adds
    to it ([None] while it is [undefined]). *)
Record ScanResult := {
  clean : bool;
  info : jsstring;
  exitCode : Z;
  resultSecret : option jsstring
}.

Definition set_resultSecret (r : ScanResult) (secret : jsstring) : ScanResult :=
  {| clean := clean r; info := info r; exitCode := exitCode r;
     resultSecret := Some secret |}.

Inductive Exception :=
| Error (message : jsstring)
| TypeError (message : jsstring)
| ClientError (status : Z) (message : jsstring)
| SystemError (code : errno)
| RequestError (reason : jsstring)
| DecryptError (reason : jsstring)
| CommandError (reason : jsstring).

Inductive Event :=
| ConsoleInfo (message : jsstring)
| ConsoleError (err : Exception)
| HttpGet (url : jsstring)
| DecryptFile (input output : jsstring)
| ExecuteCommand (cmd : jsstring).

(** ** Property lookup on [resultCache] *)

(** [resultCache] is created by the literal [{}], so besides its own
    properties it has the ones it inherits from [Object.prototype]. *)
Definition Object_prototype_keys : list jsstring :=
  map str ["constructor"; "__defineGetter__"; "__defineSetter__"; "hasOwnProperty";
           "__lookupGetter__"; "__lookupSetter__"; "isPrototypeOf";
           "propertyIsEnumerable"; "toString"; "valueOf"; "__proto__";
           "toLocaleString"]%string.

(** What [resultCache[k]] evaluates to. *)
Inductive Value :=
| VUndefined
| VBuiltin (name : jsstring)
| VResult (r : ScanResult).

Definition get (cache : gmap jsstring ScanResult) (k : jsstring) : Value :=
  match cache !! k with
  | Some r => VResult r
  | None => if bool_decide (k ∈ Object_prototype_keys) then VBuiltin k else VUndefined
  end.

(** ** The state of the process and the world around it *)

Record State := {
  resultCache : gmap jsstring ScanResult;
  (** [data] is assigned without a declaration in [generateReport]: it is
      a property of the global object. *)
  data : option (list byte);
  fs : node;
  (** how many random names [mkdtemp] has drawn *)
  draws : nat;
  (** console output and calls to the collaborators, oldest first *)
  trace : list Event
}.

Definition with_cache (c : gmap jsstring ScanResult) (st : State) : State :=
  {| resultCache := c; data := data st; fs := fs st; draws := draws st; trace := trace st |}.
Definition with_data (d : option (list byte)) (st : State) : State :=
  {| resultCache := resultCache st; data := d; fs := fs st; draws := draws st;
     trace := trace st |}.
Definition with_fs (root : node) (st : State) : State :=
  {| resultCache := resultCache st; data := data st; fs := root; draws := draws st;
     trace := trace st |}.
Definition with_draws (n : nat) (st : State) : State :=
  {| resultCache := resultCache st; data := data st; fs := fs st; draws := n;
     trace := trace st |}.
Definition emit (e : Event) (st : State) : State :=
  {| resultCache := resultCache st; data := data st; fs := fs st; draws := draws st;
     trace := trace st ++ [e] |}.

(** [clearReportCache()] *)
Definition clearReportCache (st : State) : State := with_cache ∅ st.

(** What the code does not decide: the working directory, the random
    names of [mkdtemp], the media server behind [rp], and the two
    collaborators whose modules are not part of the sources.  [decrypt]
    is what [decrypt-file.js] makes of a ciphertext and a descriptor,
    [executeCommand] what [execute-cmd.js] answers to a command on a
    file system; the properties below hold for any functions here. *)
Record World := {
  cwd : list jsstring;
  random : nat -> N;
  rp : jsstring -> result Exception (list byte);
  decrypt : list byte -> list (jsstring * JSValue) -> result Exception (list byte);
  executeCommand : jsstring -> node -> result Exception ScanResult
}.

(** *** [fs] calls on the state *)

Definition fs_call (op : node -> result errno node) (st : State) : result Exception State :=
  match op (fs st) with
  | Ok root => Ok (with_fs root st)
  | Err e => Err (SystemError e)
  end.

Definition writeFileSync (w : World) (path : jsstring) (content : list byte) :=
  fs_call (FS.writeFile (FS.resolve (cwd w) path) content).
Definition unlinkSync (w : World) (path : jsstring) :=
  fs_call (FS.unlink (FS.resolve (cwd w) path)).
Definition rmdirSync (w : World) (path : jsstring) :=
  fs_call (FS.rmdir (FS.resolve (cwd w) path)).

(** The six characters [mkdtemp] puts at the end of the prefix, from one
    random number. *)
Definition tmp_letters : jsstring :=
  str "abcdefghijklmnopqrstuvwxyzABCDEFGHIJKLMNOPQRSTUVWXYZ0123456789".

Fixpoint tmp_suffix (n : nat) (v : N) : jsstring :=
  match n with
  | O => []
  | S n' => nth (N.to_nat (v mod 62)) tmp_letters 97 :: tmp_suffix n' (v / 62)
  end.

Definition TMP_ATTEMPTS : nat := (62 * 62 * 62)%nat.

(** [mkdtemp] draws names until one is free. *)
Fixpoint mkdtemp_loop (w : World) (attempts : nat) (prefix : jsstring) (st : State)
  : State * result Exception jsstring :=
  match attempts with
  | O => (st, Err (SystemError EEXIST))
  | S attempts' =>
    let name := prefix ++ tmp_suffix 6 (random w (draws st)) in
    let st := with_draws (S (draws st)) st in
    match FS.mkdir (FS.resolve (cwd w) name) (fs st) with
    | Ok root => (with_fs root st, Ok name)
    | Err EEXIST => mkdtemp_loop w attempts' prefix st
    | Err e => (st, Err (SystemError e))
    end
  end.

Definition mkdtempSync (w : World) (prefix : jsstring) (st : State)
  : State * result Exception jsstring :=
  mkdtemp_loop w TMP_ATTEMPTS prefix st.

(** Modelled from the spec: [decrypt-file.js] is not part of the sources;
    [decryptFile(filePath, decryptedFilePath, eventContentFile)] is the
    Decryptor, `decrypt(inputPath, outputPath, key, iv, expectedHash) ->
    void, fails on ciphertext/hash mismatch or malformed key'.  It reads
    the input file and writes the plaintext to the output file. *)
Definition decryptFile (w : World) (input output : jsstring)
           (eventContentFile : list (jsstring * JSValue)) (st : State)
  : result Exception State :=
  match FS.readFile (FS.resolve (cwd w) input) (fs st) with
  | Err e => Err (SystemError e)
  | Ok ciphertext =>
    plaintext ← decrypt w ciphertext eventContentFile;
    writeFileSync w output plaintext st
  end.

(** ** Template literals *)

Definition string_of_bool (b : bool) : jsstring := if b then str "true" else str "false".

(** [`${v.clean}`] for what a lookup in the cache gave. *)
Definition string_of_clean (v : Value) : jsstring :=
  match v with
  | VResult r => string_of_bool (clean r)
  | _ => str "undefined"
  end.

(** ** [reporting.js] *)

(** What [getReport] resolves to; a property is [None] when it is
    [undefined]. *)
Record Report := {
  report_clean : option bool;
  report_scanned : bool;
  report_info : option jsstring
}.

(** [getReport(resultSecret)].  Anything but [undefined] passes the test
    [!result], and destructuring reads [clean] and [info] off it. *)
Definition getReport (st : State) (resultSecret : jsstring) : Report :=
  match get (resultCache st) resultSecret with
  | VUndefined =>
    {| report_clean := Some false; report_scanned := false;
       report_info := Some (str "Secret not recognised, file not scanned.") |}
  | VResult result =>
    {| report_clean := Some (clean result); report_scanned := true;
       report_info := Some (info result) |}
  | VBuiltin _ =>
    {| report_clean := None; report_scanned := true; report_info := None |}
  end.

(** The [opts] argument of [generateReport]; a property is [None] when it
    is [undefined]. *)
Record Opts := {
  baseUrl : option jsstring;
  tempDirectory : option jsstring;
  script : option jsstring
}.

Inductive Outcome :=
| Resolved (result : Value)
| Rejected (err : Exception).

(** An [async] call runs until it returns, throws or reaches an [await];
    there it hands the event loop a continuation, which runs on the state
    of the process as it is when the awaited promise settles. *)
Inductive Task :=
| Settled (o : Outcome)
| AwaitRp (url : jsstring)
          (k : result Exception (list byte) -> State -> State * Task)
| AwaitExec (cmd : jsstring)
            (k : result Exception ScanResult -> State -> State * Task).

Definition throw (e : Exception) (st : State) : State * Task := (st, Settled (Rejected e)).

(** The descriptor is the object [req.body.file]. *)
Abbreviation Descriptor := (list (jsstring * JSValue)) (only parsing).

(** Line 154: the key of the cache and the secret handed to the caller. *)
Definition fingerprint (eventContentFile : Descriptor) : jsstring :=
  base64sha256 (stringify (JObject eventContentFile)).

(** Line 149. *)
Definition httpUrl_of (baseUrl url : jsstring) : jsstring :=
  baseUrl ++ str "/_matrix/media/v1/download/" ++ slice url 6 None.

Section generateReport.

Variable w : World.
Variable eventContentFile : Descriptor.
Variables (script url resultSecret tempDir filePath : jsstring).

(** Lines 196-208, once [executeCommand] has settled. *)
Definition after_scan (decryptedFilePath : jsstring)
           (scanned : result Exception ScanResult) (st : State) : State * Task :=
  match scanned with
  | Err err => throw err st
  | Ok result =>
    let st := emit (ConsoleInfo (str "Result: url = " ++ [34] ++ url ++ [34]
                                   ++ str ", clean = " ++ string_of_bool (clean result)
                                   ++ str ", exit code = " ++ string_of_Z (exitCode result)))
                   st in
    let result := set_resultSecret result resultSecret in
    let st := with_cache (<[resultSecret := result]> (resultCache st)) st in
    match unlinkSync w filePath st with
    | Err err => throw err st
    | Ok st =>
      match (if decide (filePath = decryptedFilePath) then Ok st
             else unlinkSync w decryptedFilePath st) with
      | Err err => throw err st
      | Ok st =>
        match rmdirSync w tempDir st with
        | Err err => throw err st
        | Ok st => (st, Settled (Resolved (VResult result)))
        end
      end
    end
  end.

(** Lines 192-194. *)
Definition scan (decryptedFilePath : jsstring) (st : State) : State * Task :=
  let cmd := script ++ str " " ++ decryptedFilePath in
  let st := emit (ConsoleInfo (str "Running command " ++ cmd)) st in
  let st := emit (ExecuteCommand cmd) st in
  (st, AwaitExec cmd (after_scan decryptedFilePath)).

(** Lines 168-190, once [rp] has settled. *)
Definition after_fetch (fetched : result Exception (list byte)) (st : State)
  : State * Task :=
  match fetched with
  | Err err =>
    throw (ClientError 502 (str "Failed to get requested URL")) (emit (ConsoleError err) st)
  | Ok bytes =>
    let st := with_data (Some bytes) st in
    match writeFileSync w filePath bytes st with
    | Err err => throw err st
    | Ok st =>
      if truthy (own_property (str "key") eventContentFile) then
        let decryptedFilePath := path_join tempDir (str "unsafeFile") in
        let st := emit (ConsoleInfo (str "Decrypting " ++ filePath ++ str ", writing to "
                                       ++ decryptedFilePath)) st in
        let st := emit (DecryptFile filePath decryptedFilePath) st in
        match decryptFile w filePath decryptedFilePath eventContentFile st with
        | Err err =>
          throw (ClientError 400 (str "Failed to decrypt file")) (emit (ConsoleError err) st)
        | Ok st => scan decryptedFilePath st
        end
      else scan filePath st
    end
  end.

End generateReport.

(** [generateReport(console, eventContentFile, opts)]; [console] writes to
    the trace. *)
Definition generateReport (w : World) (eventContentFile : Descriptor) (opts : Opts)
           (st : State) : State * Task :=
  let url := own_property (str "url") eventContentFile in
  match baseUrl opts, tempDirectory opts, script opts with
  | Some baseUrl, Some tempDirectory, Some script =>
    match url with
    | Some (JString url) =>
      let httpUrl := httpUrl_of baseUrl url in
      let resultSecret := fingerprint eventContentFile in
      match get (resultCache st) resultSecret with
      | VUndefined =>
        match mkdtempSync w (tempDirectory ++ path_sep ++ str "av-") st with
        | (st, Err err) => throw err st
        | (st, Ok tempDir) =>
          let filePath := path_join tempDir (str "unsafeEncryptedFile") in
          let st := emit (ConsoleInfo (str "Downloading " ++ httpUrl ++ str ", writing to "
                                         ++ filePath)) st in
          let st := emit (HttpGet httpUrl) st in
          (st, AwaitRp httpUrl
                 (after_fetch w eventContentFile script url resultSecret tempDir filePath))
        end
      | result =>
        let st := emit (ConsoleInfo (str "Returning cached result: url = " ++ url
                                       ++ str ", clean = " ++ string_of_clean result)) st in
        (st, Settled (Resolved result))
      end
    | _ => throw (TypeError (str "Cannot read property 'slice' of undefined")) st
    end
  | _, _, _ => throw (Error (str "Expected baseUrl, tempDirectory and script in opts")) st
  end.

(** *** Running calls *)

(** Let the promise a task waits on settle, and run the task to its next
    [await]. *)
Definition resume (w : World) (t : Task) (st : State) : State * Task :=
  match t with
  | Settled o => (st, Settled o)
  | AwaitRp url k => k (rp w url) st
  | AwaitExec cmd k => k (executeCommand w cmd (fs st)) st
  end.

(** A call with nothing else running in between: every [await] is resumed
    at once, on the file system as the call left it.  The scanner reads
    the file it is given and neither removes nor adds a file;
    [complete_on] below is the run in which it, or anything else, may. *)
Fixpoint complete (w : World) (t : Task) (st : State) : State * Outcome :=
  match t with
  | Settled o => (st, o)
  | AwaitRp url k =>
    match k (rp w url) st with
    | (st', t') => complete w t' st'
    end
  | AwaitExec cmd k =>
    match k (executeCommand w cmd (fs st)) st with
    | (st', t') => complete w t' st'
    end
  end.

Definition generate (w : World) (eventContentFile : Descriptor) (opts : Opts) (st : State)
  : State * Outcome :=
  match generateReport w eventContentFile opts st with
  | (st', t) => complete w t st'
  end.

(** A call while the file system changes under it.  What the scanner the
    call started, or anything else on the machine, has made of the file
    system by the time an awaited promise settles is [during_download] of
    what it was when the call began to wait for [rp], and [during_scan]
    of what it was when the call began to wait for the scanner.
    [complete] is the run in which neither changes anything. *)
Fixpoint complete_on (w : World) (during_download during_scan : node -> node)
         (t : Task) (st : State) : State * Outcome :=
  match t with
  | Settled o => (st, o)
  | AwaitRp url k =>
    match k (rp w url) (with_fs (during_download (fs st)) st) with
    | (st', t') => complete_on w during_download during_scan t' st'
    end
  | AwaitExec cmd k =>
    match k (executeCommand w cmd (fs st)) (with_fs (during_scan (fs st)) st) with
    | (st', t') => complete_on w during_download during_scan t' st'
    end
  end.

Definition generate_on (w : World) (during_download during_scan : node -> node)
           (eventContentFile : list (list N * JSValue)) (opts : Opts) (st : State)
  : State * Outcome :=
  match generateReport w eventContentFile opts st with
  | (st', t) => complete_on w during_download during_scan t st'
  end.

(** Two calls in flight at once: [sched] names, step by step, the call
    whose awaited promise settles next ([true] for the first call). *)
Fixpoint interleave (w : World) (sched : list bool) (a b : Task) (st : State)
  : State * Task * Task :=
  match sched with
  | [] => (st, a, b)
  | true :: sched' =>
    match resume w a st with
    | (st', a') => interleave w sched' a' b st'
    end
  | false :: sched' =>
    match resume w b st with
    | (st', b') => interleave w sched' a b' st'
    end
  end.

(** Two calls for one descriptor, the second made while the first waits
    for its download. *)
Definition generate_twice_concurrently (w : World) (sched : list bool)
           (eventContentFile : Descriptor) (opts : Opts) (st : State)
  : State * Task * Task :=
  match generateReport w eventContentFile opts st with
  | (st1, a) =>
    match generateReport w eventContentFile opts st1 with
    | (st2, b) => interleave w sched a b st2
    end
  end.

Definition is_scan (e : Event) : bool :=
  match e with
  | ExecuteCommand _ => true
  | _ => false
  end.

Definition is_collaborator_call (e : Event) : bool :=
  match e with
  | HttpGet _ | DecryptFile _ _ | ExecuteCommand _ => true
  | ConsoleInfo _ | ConsoleError _ => false
  end.

Definition scans (st : State) : nat := length (filter (fun e => is_scan e = true) (trace st)).


(** ** [handlers.js] *)

(** Line 73. *)
Definition redactedSecret (secret : jsstring) : jsstring :=
  slice secret 0 (Some 4%Z) ++ str "..." ++ slice secret (-4) None.

Definition string_of_property (p : option bool) : jsstring :=
  match p with
  | Some b => string_of_bool b
  | None => str "undefined"
  end.

(** [scanReportHandler]: the report is the body of the 200 response. *)
Definition scanReportHandler (secret : jsstring) (st : State) : State * Report :=
  let report := getReport st secret in
  let st := emit (ConsoleInfo (str "Returning scan report: secret = " ++ redactedSecret secret
                                 ++ str " , scanned = " ++ string_of_bool (report_scanned report)
                                 ++ str ", clean = " ++ string_of_property (report_clean report)))
                 st in
  (st, report).

(** The body of the response of [scanHandler]. *)
Record ScanResponse := {
  response_clean : option bool;
  response_info : option jsstring;
  response_secret : option jsstring
}.

(** [scanHandler], from the moment [generateReport] has settled: a
    verdict is answered with status 200, an exception goes to [next]. *)
Definition scanHandler (settled : Outcome) : result Exception ScanResponse :=
  match settled with
  | Resolved (VResult r) =>
    Ok {| response_clean := Some (clean r); response_info := Some (info r);
          response_secret := resultSecret r |}
  | Resolved (VBuiltin _) =>
    Ok {| response_clean := None; response_info := None; response_secret := None |}
  | Resolved VUndefined =>
    Err (TypeError (str "Cannot destructure property 'clean' of undefined"))
  | Rejected err => Err err
  end.

(** [wrapAsyncHandle(scanHandler)] on a request whose body has passed
    [scanSchema], with [config.scan] for [opts]: the call of
    [generateReport] of line 55, left to run alone, and the response. *)
Definition post_scan (w : World) (file : list (list N * JSValue)) (config_scan : Opts)
           (st : State) : State * result Exception ScanResponse :=
  match generate w file config_scan st with
  | (st', settled) => (st', scanHandler settled)
  end.

(** ** Media servers, a scanner and descriptors to run the code on *)

Definition verdict_clean : ScanResult :=
  {| clean := true; info := str "File is clean"; exitCode := 0; resultSecret := None |}.

Definition world_ok : World :=
  {| cwd := [];
     random := fun n => N.of_nat n;
     rp := fun _ => Ok [37; 80; 68; 70];
     decrypt := fun ciphertext _ => Ok ciphertext;
     executeCommand := fun _ _ => Ok verdict_clean |}.

Definition world_fetch_fails : World :=
  {| cwd := [];
     random := fun n => N.of_nat n;
     rp := fun _ => Err (RequestError (str "ECONNREFUSED"));
     decrypt := fun ciphertext _ => Ok ciphertext;
     executeCommand := fun _ _ => Ok verdict_clean |}.

Definition world_decrypt_fails : World :=
  {| cwd := [];
     random := fun n => N.of_nat n;
     rp := fun _ => Ok [37; 80; 68; 70];
     decrypt := fun _ _ => Err (DecryptError (str "Unexpected sha256 hash"));
     executeCommand := fun _ _ => Ok verdict_clean |}.

(** A scanner that cannot be started. *)
Definition world_scan_fails : World :=
  {| cwd := [];
     random := fun n => N.of_nat n;
     rp := fun _ => Ok [37; 80; 68; 70];
     decrypt := fun ciphertext _ => Ok ciphertext;
     executeCommand := fun _ _ => Err (CommandError (str "spawn ./scan.sh ENOENT")) |}.

(** A process that has just started: nothing cached, [/tmp] empty. *)
Definition fresh : State :=
  {| resultCache := ∅; data := None; fs := Dir {[ str "tmp" := Dir ∅ ]}; draws := 0;
     trace := [] |}.

Definition opts_ok : Opts :=
  {| baseUrl := Some (str "https://matrix.example.org");
     tempDirectory := Some (str "/tmp");
     script := Some (str "./scan.sh") |}.

Definition plain_file : Descriptor :=
  [(str "url", JString (str "mxc://example.org/abc"));
   (str "mimetype", JString (str "image/png"))].

(** The same two properties, sent in the other order. *)
Definition plain_file_reordered : Descriptor :=
  [(str "mimetype", JString (str "image/png"));
   (str "url", JString (str "mxc://example.org/abc"))].

Definition encrypted_file : Descriptor :=
  [(str "v", JString (str "v2"));
   (str "key", JObject [(str "alg", JString (str "A256CTR")); (str "ext", JBool true);
                        (str "k", JString (str "aWF6-32KGYaC3A_FEUCk1Bt0JA37zP0wrStgmdCaW-0"));
                        (str "key_ops", JArray [JString (str "encrypt"); JString (str "decrypt")]);
                        (str "kty", JString (str "oct"))]);
   (str "iv", JString (str "w+sE15fzSc0AAAAAAAAAAA"));
   (str "hashes", JObject [(str "sha256", JString (str "fdSLu/YkRx3Wyh3KQabP3rd6+SFiKg5lsJZQHtkSAYA"))]);
   (str "url", JString (str "mxc://example.org/xyz"))].

(** ** Notions the statements and proofs below use *)

(** The errors [fs] calls throw. *)
Definition is_SystemError (e : Exception) : bool :=
  match e with
  | SystemError _ => true
  | _ => false
  end.

(** What a call resolved to. *)
Definition verdict_of (o : Outcome) : Value :=
  match o with
  | Resolved v => v
  | Rejected _ => VUndefined
  end.

(** [text] shows all of [secret], in one piece. *)
Definition rendered_in_full (secret text : list N) : Prop :=
  exists before after, text = before ++ secret ++ after.

(** A descriptor whose [url] has four code units. *)
Definition short_url_file : list (list N * JSValue) := [(str "url", JString (str "ab:c"))].

(** Segments [normalizeString] keeps as they are. *)
Definition plain_segment (seg : list N) : Prop :=
  seg <> [] /\ seg <> str "." /\ seg <> str "..".

(** The tree with the entries of the directory at [p] replaced. *)
Definition replace_dir (p : list (list N)) (entries : gmap (list N) node) (root : node)
  : result errno node :=
  FS.in_dir p (fun _ => Ok entries) root.

(** The tree during a call: [root0] with one more entry [d] in the
    directory [parent], whose entries were [m0]; the new entry is a
    directory with entries [e]. *)
Definition tempdir_holds (root0 : node) (parent : list (list N)) (d : list N)
           (m0 e : gmap (list N) node) (root : node) : Prop :=
  replace_dir parent (<[d := Dir e]> m0) root0 = Ok root.

(** What the temporary directory holds when the scanner runs, and the
    file the scanner is given. *)
Definition scanning (tempDir dfp : list N) (e : gmap (list N) node) : Prop :=
  (dfp = path_join tempDir (str "unsafeEncryptedFile")
   /\ exists bytes, e = {[ str "unsafeEncryptedFile" := File bytes ]})
  \/ (dfp = path_join tempDir (str "unsafeFile")
      /\ exists bytes plaintext,
          e = <[ str "unsafeFile" := File plaintext ]>
                {[ str "unsafeEncryptedFile" := File bytes ]}).


Definition hex_value (c : N) : option N :=
  if (48 <=? c) && (c <=? 57) then Some (c - 48)
  else if (97 <=? c) && (c <=? 102) then Some (c - 87)
  else None.

Definition escaped_value (e : N) : option N :=
  if e =? 98 then Some 8
  else if e =? 116 then Some 9
  else if e =? 110 then Some 10
  else if e =? 102 then Some 12
  else if e =? 114 then Some 13
  else if e =? 34 then Some 34
  else if e =? 92 then Some 92
  else None.

(** The string up to its closing quote, and what follows the quote. *)
Fixpoint unquote_body (s : list N) : option (list N * list N) :=
  match s with
  | [] => None
  | c :: rest =>
    if c =? 34 then Some ([], rest)
    else if c =? 92 then
      match rest with
      | [] => None
      | e :: rest1 =>
        if e =? 117 then
          match rest1 with
          | h1 :: h2 :: h3 :: h4 :: rest2 =>
            match hex_value h1, hex_value h2, hex_value h3, hex_value h4 with
            | Some v1, Some v2, Some v3, Some v4 =>
              match unquote_body rest2 with
              | Some (t, r) => Some ((((v1 * 16 + v2) * 16 + v3) * 16 + v4) :: t, r)
              | None => None
              end
            | _, _, _, _ => None
            end
          | _ => None
          end
        else
          match escaped_value e with
          | Some v =>
            match unquote_body rest1 with
            | Some (t, r) => Some (v :: t, r)
            | None => None
            end
          | None => None
          end
      end
    else
      match unquote_body rest with
      | Some (t, r) => Some (c :: t, r)
      | None => None
      end
  end.

Definition unescape_check (c : N) : bool :=
  match unquote_body (unicode_escape c ++ [34]) with
  | Some ([c'], []) => c' =? c
  | _ => false
  end.

Fixpoint unescape_check_from (n : nat) (c : N) : bool :=
  match n with
  | O => true
  | S n' => unescape_check c && unescape_check_from n' (N.succ c)
  end.

(** Every verdict in the cache is filed under the secret it carries. *)
Definition cache_stamped (cache : gmap (list N) ScanResult) : Prop :=
  forall k r, cache !! k = Some r -> resultSecret r = Some k.

(** The file the scanner is given: the decrypted file when the descriptor
    has a [key], the downloaded file otherwise. *)
Definition scanned_path (tempDir : list N) (D : list (list N * JSValue)) : list N :=
  if truthy (own_property (str "key") D) then path_join tempDir (str "unsafeFile")
  else path_join tempDir (str "unsafeEncryptedFile").

(** What a call writes to the console and asks of its collaborators up to
    the moment the scanner is started. *)
Definition events_before_verdict (b sc url tempDir : list N) (D : list (list N * JSValue))
  : list Event :=
  let filePath := path_join tempDir (str "unsafeEncryptedFile") in
  let dfp := scanned_path tempDir D in
  [ConsoleInfo (str "Downloading " ++ httpUrl_of b url ++ str ", writing to " ++ filePath);
   HttpGet (httpUrl_of b url)]
    ++ (if truthy (own_property (str "key") D)
        then [ConsoleInfo (str "Decrypting " ++ filePath ++ str ", writing to " ++ dfp);
              DecryptFile filePath dfp]
        else [])
    ++ [ConsoleInfo (str "Running command " ++ sc ++ str " " ++ dfp);
        ExecuteCommand (sc ++ str " " ++ dfp)].

(** The world with another decryptor. *)
Definition with_decrypt
           (d : list byte -> list (list N * JSValue) -> result Exception (list byte))
           (w : World) : World :=
  {| cwd := cwd w; random := random w; rp := rp w; decrypt := d;
     executeCommand := executeCommand w |}.

(** What a call of [generateReport] for the descriptor [D] is at any
    moment: settled, with a verdict that carries the fingerprint of [D]
    if it returned one, or waiting for its download or for the scanner,
    to go on with the lines after the [await]. *)
Definition call_of (w : World) (D : list (list N * JSValue)) (t : Task) : Prop :=
  match t with
  | Settled (Resolved v) =>
    exists r, v = VResult r /\ resultSecret r = Some (fingerprint D)
  | Settled (Rejected _) => True
  | AwaitRp _ k =>
    exists sc url tempDir filePath,
      k = after_fetch w D sc url (fingerprint D) tempDir filePath
  | AwaitExec _ k =>
    exists url tempDir filePath dfp,
      k = after_scan w url (fingerprint D) tempDir filePath dfp
  end.

(** * Properties *)

(** ** The code on concrete inputs *)

Example sha_abc :
  hex_of (SHA256.sha256 (str "abc")) =
  str "ba7816bf8f01cfea414140de5dae2223b00361a396177a9cb410ff61f20015ad".
Proof. vm_compute. reflexivity. Qed.

Example sha_empty : base64sha256 [] = str "47DEQpj8HBSa+/TImW+5JCeuQeRkm5NMpJWZG3hSuFU=".
Proof. vm_compute. reflexivity. Qed.

Example sha_two_blocks :
  hex_of (SHA256.sha256 (str "abcdbcdecdefdefgefghfghighijhijkijkljklmklmnlmnomnopnopq")) =
  str "248d6a61d20638b8e5c026930c3e6039a33ce45964ff2167f6ecedd419db06c1".
Proof. vm_compute. reflexivity. Qed.

Example stringify_example :
  stringify (JObject [(str "url", JString (str "mxc://a/b")); (str "ok", JBool true);
                      (str "l", JArray [JString [120; 34; 121]; JString [10; 0xD800]])])
  = dq "{'url':'mxc://a/b','ok':true,'l':['x\'y','\n\ud800']}".
Proof. vm_compute. reflexivity. Qed.

Example path_join_examples :
  path_join (str "/tmp//av-a1B2c3") (str "unsafeFile") = str "/tmp/av-a1B2c3/unsafeFile"
  /\ path_join (str "tmp/../../x/./av-q/") (str "f") = str "../x/av-q/f"
  /\ path_join (str "/../a/") (str "..") = str "/"
  /\ path_normalize (str "a/b/../../") = str "./".
Proof. vm_compute. repeat split. Qed.

Example fs_example :
  let root := Dir {[ str "tmp" := Dir ∅ ]} in
  (r1 ← FS.mkdir (FS.resolve [] (str "/tmp//av-x")) root;
   r2 ← FS.writeFile (FS.resolve [] (str "/tmp/av-x/f")) [1; 2] r1;
   r3 ← FS.unlink (FS.resolve [] (str "/tmp/av-x/f")) r2;
   FS.rmdir (FS.resolve [str "tmp"] (str "av-x")) r3) = Ok root.
Proof. vm_compute. reflexivity. Qed.

Example string_of_Z_examples :
  string_of_Z 0 = str "0" /\ string_of_Z 1024 = str "1024" /\ string_of_Z (-13) = str "-13".
Proof. vm_compute. repeat split. Qed.

Example Number_toString_examples :
  map Number_toString
      [Finite false (2 ^ 52) (-52); Finite true (3 * 2 ^ 51) (-52);
       Finite false 7205759403792794 (-56); Finite false 5404319552844596 (-54);
       Finite false (476837158203125 * 16) 17; Finite false (95367431640625 * 64) 14;
       Finite false 7555786372591432 (-76); Finite false 4722366482869645 (-72);
       Finite false 1 (-1074); Finite false (2 ^ 53 - 1) 971; Finite true 0 0]
  = map str ["1"; "-1.5"; "0.1"; "0.30000000000000004"; "1e+21"; "100000000000000000000";
             "1e-7"; "0.000001"; "5e-324"; "1.7976931348623157e+308"; "0"]%string.
Proof. vm_compute. reflexivity. Qed.

Example stringify_numbers :
  stringify (JObject [(str "size", JNumber (Finite false (2 ^ 52) (-42)));
                      (str "n", JArray [JNull; JNumber NaN; JNumber (Infinity true);
                                        JNumber (Finite true 0 0)])])
  = dq "{'size':1024,'n':[null,null,null,0]}".
Proof. vm_compute. reflexivity. Qed.

Example object_of_members_examples :
  object_of_members plain_file = plain_file
  /\ object_of_members plain_file_reordered = plain_file_reordered
  /\ object_of_members [(str "b", JBool true); (str "1", JNull); (str "0", JBool false);
                        (str "01", JNull); (str "b", JString (str "x"))]
     = [(str "0", JBool false); (str "1", JNull); (str "b", JString (str "x"));
        (str "01", JNull)]
  /\ object_of_members [(str "10", JNull); (str "9", JNull); (str "a", JNull)]
     = object_of_members [(str "9", JNull); (str "a", JNull); (str "10", JNull)].
Proof. vm_compute. repeat split. Qed.

Arguments str : simpl never.
Arguments fingerprint : simpl never.
Arguments base64sha256 : simpl never.
Arguments httpUrl_of : simpl never.
Arguments path_join : simpl never.
Arguments mkdtempSync : simpl never.
Arguments string_of_Z : simpl never.
Arguments string_of_bool : simpl never.
Arguments FS.resolve : simpl never.

(** ** [slice] *)

Lemma relative_index_nonneg (len i : Z) : (0 <= i)%Z -> relative_index len i = Z.min i len.
Proof. intros H. unfold relative_index. by destruct (Z.ltb_spec i 0); [lia|]. Qed.

Lemma relative_index_neg (len i : Z) : (i < 0)%Z -> relative_index len i = Z.max (len + i) 0.
Proof. intros H. unfold relative_index. by destruct (Z.ltb_spec i 0); [|lia]. Qed.

Section slice.

Context {A : Type}.
Implicit Types s : list A.

(** [s.slice(n)] drops the first [n] code units, all of them when the
    string is shorter. *)
Lemma slice_from s (n : nat) : slice s (Z.of_nat n) None = drop n s.
Proof.
  unfold slice. rewrite relative_index_nonneg by lia.
  destruct (Z.leb_spec (Z.of_nat (length s)) (Z.min (Z.of_nat n) (Z.of_nat (length s))))
    as [Hle|Hlt].
  - symmetry. apply drop_ge. lia.
  - replace (Z.to_nat (Z.min (Z.of_nat n) (Z.of_nat (length s)))) with n by lia.
    apply take_ge. rewrite length_drop. lia.
Qed.

(** [s.slice(0, n)] keeps the first [n] code units. *)
Lemma slice_to s (n : nat) : slice s 0 (Some (Z.of_nat n)) = take n s.
Proof.
  unfold slice. rewrite !relative_index_nonneg by lia.
  rewrite (Z.min_l 0) by lia.
  destruct (Z.leb_spec (Z.min (Z.of_nat n) (Z.of_nat (length s))) 0) as [Hle|Hlt].
  - destruct n as [|n]; [done|].
    destruct s; [done|]. simpl length in Hle. lia.
  - rewrite drop_0, Z.sub_0_r.
    destruct (Z.min_spec (Z.of_nat n) (Z.of_nat (length s))) as [[_ ->]|[Hge ->]].
    + by rewrite Nat2Z.id.
    + rewrite Nat2Z.id. rewrite !take_ge; [done|lia..].
Qed.

(** [s.slice(-n)] keeps the last [n] code units. *)
Lemma slice_last s (n : nat) :
  (0 < n)%nat -> slice s (- Z.of_nat n) None = drop (length s - n) s.
Proof.
  intros Hn. unfold slice. rewrite relative_index_neg by lia.
  destruct (Z.leb_spec (Z.of_nat (length s))
                       (Z.max (Z.of_nat (length s) + - Z.of_nat n) 0)) as [Hle|Hlt].
  - destruct s; [done|]. simpl length in Hle. lia.
  - replace (Z.to_nat (Z.max (Z.of_nat (length s) + - Z.of_nat n) 0))
      with (length s - n)%nat by lia.
    apply take_ge. rewrite length_drop. lia.
Qed.

End slice.

(** ** The fingerprint is 44 characters of base64 *)

Lemma base64_length_32 (bs : list N) : length bs = 32%nat -> length (base64 bs) = 44%nat.
Proof.
  intros H.
  do 33 (destruct bs as [|? bs]; [discriminate H || reflexivity|]).
  discriminate H.
Qed.

Lemma sha256_length (msg : list N) : length (SHA256.sha256 msg) = 32%nat.
Proof.
  unfold SHA256.sha256.
  generalize (fold_left SHA256.compress
                (SHA256.chunks (length (SHA256.pad msg)) 64 (SHA256.pad msg)) SHA256.init).
  intros h. reflexivity.
Qed.

Lemma base64sha256_length (s : list N) : length (base64sha256 s) = 44%nat.
Proof. unfold base64sha256. apply base64_length_32, sha256_length. Qed.

Lemma fingerprint_length (D : list (list N * JSValue)) : length (fingerprint D) = 44%nat.
Proof. apply base64sha256_length. Qed.

Lemma Object_prototype_keys_short :
  Forall (fun k : list N => (length k <= 20)%nat) Object_prototype_keys.
Proof. vm_compute. repeat constructor. Qed.

(** No fingerprint is the name of a property of [Object.prototype], so a
    lookup of a fingerprint sees the own properties of the cache only. *)
Lemma fingerprint_not_inherited (D : list (list N * JSValue)) :
  fingerprint D ∉ Object_prototype_keys.
Proof.
  intros Hin.
  pose proof (proj1 (Forall_forall _ _) Object_prototype_keys_short _ Hin) as Hlen.
  cbv beta in Hlen. rewrite fingerprint_length in Hlen. lia.
Qed.

Lemma get_fingerprint (cache : gmap (list N) ScanResult) (D : list (list N * JSValue)) :
  get cache (fingerprint D) =
  match cache !! fingerprint D with
  | Some r => VResult r
  | None => VUndefined
  end.
Proof.
  unfold get. destruct (cache !! fingerprint D); [done|].
  rewrite bool_decide_eq_false_2; [done|apply fingerprint_not_inherited].
Qed.

(** ** What the steps of the pipeline leave alone *)

Lemma fs_call_Ok op st st' :
  fs_call op st = Ok st' -> exists root, op (fs st) = Ok root /\ st' = with_fs root st.
Proof. unfold fs_call. destruct (op (fs st)); intros; simplify_eq; eauto. Qed.

Lemma fs_call_Err op st e :
  fs_call op st = Err e -> exists code, op (fs st) = Err code /\ e = SystemError code.
Proof. unfold fs_call. destruct (op (fs st)); intros; simplify_eq; eauto. Qed.

Lemma mkdtemp_loop_frame w attempts prefix st st' r :
  mkdtemp_loop w attempts prefix st = (st', r) ->
  resultCache st' = resultCache st /\ data st' = data st /\ trace st' = trace st.
Proof.
  revert st. induction attempts as [|n IH]; intros st H; simpl in H.
  - by simplify_eq.
  - destruct (FS.mkdir _ _) as [root|[]]; simplify_eq; try done.
    by apply IH in H.
Qed.

Lemma mkdtemp_loop_Err w attempts prefix st st' e :
  mkdtemp_loop w attempts prefix st = (st', Err e) ->
  fs st' = fs st /\ exists code, e = SystemError code.
Proof.
  revert st. induction attempts as [|n IH]; intros st H; simpl in H.
  - simplify_eq. eauto.
  - destruct (FS.mkdir _ _) as [root|[]]; simplify_eq; eauto.
    by apply IH in H.
Qed.

Lemma mkdtempSync_frame w prefix st st' r :
  mkdtempSync w prefix st = (st', r) ->
  resultCache st' = resultCache st /\ data st' = data st /\ trace st' = trace st.
Proof. apply mkdtemp_loop_frame. Qed.

Lemma mkdtempSync_Err w prefix st st' e :
  mkdtempSync w prefix st = (st', Err e) ->
  fs st' = fs st /\ exists code, e = SystemError code.
Proof. apply mkdtemp_loop_Err. Qed.

Lemma decryptFile_Ok w input output D st st' :
  decryptFile w input output D st = Ok st' ->
  resultCache st' = resultCache st /\ data st' = data st /\ trace st' = trace st.
Proof.
  unfold decryptFile, writeFileSync. destruct (FS.readFile _ _); [|done].
  destruct (decrypt w _ _); [|done]. simpl.
  intros (root & _ & ->)%fs_call_Ok. done.
Qed.

(** ** Where a call leaves the cache *)

Lemma after_scan_inv w url rs tempDir filePath dfp scanned st st' t :
  after_scan w url rs tempDir filePath dfp scanned st = (st', t) ->
  exists o, t = Settled o /\
    ((exists e, scanned = Err e /\ o = Rejected e /\ st' = st)
     \/ (exists r, scanned = Ok r
           /\ resultCache st' = <[rs := set_resultSecret r rs]> (resultCache st)
           /\ trace st' = trace st ++
                [ConsoleInfo (str "Result: url = " ++ [34] ++ url ++ [34]
                                ++ str ", clean = " ++ string_of_bool (clean r)
                                ++ str ", exit code = " ++ string_of_Z (exitCode r))]
           /\ (o = Resolved (VResult (set_resultSecret r rs))
               \/ exists code, o = Rejected (SystemError code)))).
Proof.
  unfold after_scan, throw, unlinkSync, rmdirSync. intros H.
  destruct scanned as [r|e]; [|simplify_eq; eauto 10].
  repeat match type of H with
         | context [fs_call ?op ?s] =>
           let E := fresh "E" in
           destruct (fs_call op s) eqn:E;
             [apply fs_call_Ok in E as (? & _ & ->)|apply fs_call_Err in E as (? & _ & ->)]
         | context [decide ?P] => destruct (decide P)
         end; simplify_eq; eexists; (split; [done|]); right; eexists; eauto 10.
Qed.

Lemma after_fetch_inv w D script url rs tempDir filePath fetched st st' t :
  after_fetch w D script url rs tempDir filePath fetched st = (st', t) ->
  resultCache st' = resultCache st /\
  ((exists err, fetched = Err err
      /\ t = Settled (Rejected (ClientError 502 (str "Failed to get requested URL")))
      /\ st' = emit (ConsoleError err) st)
   \/ (exists code, t = Settled (Rejected (SystemError code)))
   \/ t = Settled (Rejected (ClientError 400 (str "Failed to decrypt file")))
   \/ (exists dfp, t = AwaitExec (script ++ str " " ++ dfp)
                         (after_scan w url rs tempDir filePath dfp))).
Proof.
  unfold after_fetch, scan, throw, writeFileSync. intros H.
  destruct fetched as [bytes|err]; [|simplify_eq; eauto 10].
  destruct (fs_call _ _) as [st1|e] eqn:E1.
  - apply fs_call_Ok in E1 as (root & _ & ->).
    destruct (truthy _).
    + destruct (decryptFile _ _ _ _ _) as [st2|e] eqn:E2.
      * apply decryptFile_Ok in E2 as (Hc & _ & _). simplify_eq. simpl in *.
        split; [done|]. eauto 10.
      * simplify_eq. eauto 10.
    + simplify_eq. eauto 10.
  - apply fs_call_Err in E1 as (code & _ & ->). simplify_eq. eauto 10.
Qed.

(** A call that returns a verdict leaves it in the cache under the
    fingerprint; a call that fails leaves the cache as it was, unless what
    fails is the removal of the temporary files. *)
Lemma generate_cache w D opts st st' o :
  generate w D opts st = (st', o) ->
  match o with
  | Resolved v =>
    exists r, v = VResult r /\ resultCache st' !! fingerprint D = Some r
      /\ (resultCache st' = resultCache st
          \/ resultCache st !! fingerprint D = None
             /\ resultCache st' = <[fingerprint D := r]> (resultCache st))
  | Rejected e =>
    is_SystemError e = true
    \/ resultCache st' = resultCache st
       /\ (forall status message, e = ClientError status message ->
           resultCache st !! fingerprint D = None)
  end.
Proof.
  unfold generate, generateReport, throw. intros H.
  destruct (baseUrl opts) as [b|], (tempDirectory opts) as [td|], (script opts) as [sc|];
    try (simpl in H; simplify_eq; right; done).
  destruct (own_property _ D) as [[url| | | | |]|]; try (simpl in H; simplify_eq; right; done).
  rewrite get_fingerprint in H.
  destruct (resultCache st !! fingerprint D) as [r|] eqn:Hget.
  { simpl in H. simplify_eq. simpl. eauto 10. }
  destruct (mkdtempSync _ _ _) as [st1 [tempDir|e]] eqn:Hmk.
  2:{ apply mkdtempSync_Err in Hmk as (_ & code & ->). simpl in H. simplify_eq. by left. }
  apply mkdtempSync_frame in Hmk as (Hc1 & _ & _).
  simpl in H.
  destruct (after_fetch _ _ _ _ _ _ _ _ _) as [st2 t2] eqn:Hfetch.
  apply after_fetch_inv in Hfetch
    as (Hc2 & [(err & _ & -> & _)|[(code & ->)|[->|(dfp & ->)]]]); simpl in *.
  - simplify_eq. right. split; [congruence|]. intros; congruence.
  - simplify_eq. by left.
  - simplify_eq. right. split; [congruence|]. intros; congruence.
  - destruct (after_scan _ _ _ _ _ _ _ _) as [st3 t3] eqn:Hscan.
    apply after_scan_inv in Hscan
      as (o' & -> & [(e & _ & -> & ->)|(r & _ & Hc3 & _ & [->|(code & ->)])]);
      simpl in H; simplify_eq.
    + right. split; [congruence|]. intros; congruence.
    + eexists. split; [done|]. rewrite Hc3, Hc2, Hc1.
      rewrite lookup_insert_eq. split; [done|]. by right.
    + by left.
Qed.

(** ** The cache, the reports and the configuration *)

(** C1: when a call of [generateReport] for a descriptor has returned a
    verdict, the next call for the same descriptor settles at once with
    the same verdict: it reaches no [await], and all it does to the state
    of the process is to write one line to the console.  It fetches,
    decrypts and scans nothing, whatever the media server and the scanner
    would answer by then. *)
Theorem generateReport_again_is_cached w w' D opts st st1 v :
  generate w D opts st = (st1, Resolved v) ->
  exists line,
    generateReport w' D opts st1 = (emit (ConsoleInfo line) st1, Settled (Resolved v))
    /\ generate w' D opts st1 = (emit (ConsoleInfo line) st1, Resolved v)
    /\ filter (fun e => is_collaborator_call e = true) (trace (emit (ConsoleInfo line) st1))
       = filter (fun e => is_collaborator_call e = true) (trace st1).
Proof.
  intros H. pose proof (generate_cache _ _ _ _ _ _ H) as (r & -> & Hr & _).
  assert (exists line, generateReport w' D opts st1
                       = (emit (ConsoleInfo line) st1, Settled (Resolved (VResult r))))
    as [line Hline].
  { unfold generate, generateReport, throw in *.
    destruct (baseUrl opts), (tempDirectory opts), (script opts); try (simpl in H; congruence).
    destruct (own_property _ D) as [[url| | | | |]|]; try (simpl in H; congruence).
    rewrite get_fingerprint, Hr. eauto. }
  exists line. split; [done|]. split.
  - unfold generate. by rewrite Hline.
  - simpl. rewrite filter_app. simpl. by rewrite app_nil_r.
Qed.

Lemma generateReport_again_is_cached_witness :
  let first := generate world_ok plain_file opts_ok fresh in
  exists line,
    generateReport world_fetch_fails plain_file opts_ok first.1
    = (emit (ConsoleInfo line) first.1, Settled (Resolved (verdict_of first.2))).
Proof.
  intros first.
  assert (first = (first.1, Resolved (verdict_of first.2))) as H by (vm_compute; reflexivity).
  destruct (generateReport_again_is_cached
              world_ok world_fetch_fails plain_file opts_ok fresh _ _ H) as (line & Hline & _).
  exists line. exact Hline.
Defined.

(** C5: after [generateReport] has returned a verdict for a descriptor,
    [getReport] on the descriptor's fingerprint answers [scanned = true]
    with the [clean] and [info] of that verdict. *)
Theorem getReport_after_generateReport w D opts st st1 v :
  generate w D opts st = (st1, Resolved v) ->
  exists r, v = VResult r
    /\ getReport st1 (fingerprint D)
       = {| report_clean := Some (clean r); report_scanned := true;
            report_info := Some (info r) |}.
Proof.
  intros H. pose proof (generate_cache _ _ _ _ _ _ H) as (r & -> & Hr & _).
  exists r. split; [done|]. unfold getReport. by rewrite get_fingerprint, Hr.
Qed.

Lemma getReport_after_generateReport_witness :
  let first := generate world_ok encrypted_file opts_ok fresh in
  exists r, verdict_of first.2 = VResult r
    /\ getReport first.1 (fingerprint encrypted_file)
       = {| report_clean := Some (clean r); report_scanned := true;
            report_info := Some (info r) |}.
Proof.
  intros first.
  assert (first = (first.1, Resolved (verdict_of first.2))) as H by (vm_compute; reflexivity).
  exact (getReport_after_generateReport world_ok encrypted_file opts_ok fresh _ _ H).
Defined.

(** C9: when [baseUrl], [tempDirectory] or [script] is [undefined] in
    [opts], [generateReport] throws its configuration error and does
    nothing else: it reaches no [await], and the cache, the file system
    and the trace are as they were. *)
Theorem generateReport_missing_opts w D opts st :
  baseUrl opts = None \/ tempDirectory opts = None \/ script opts = None ->
  generateReport w D opts st
  = (st, Settled (Rejected (Error (str "Expected baseUrl, tempDirectory and script in opts")))).
Proof.
  unfold generateReport, throw.
  intros [H|[H|H]]; rewrite H; by destruct (baseUrl opts), (tempDirectory opts).
Qed.

Lemma generateReport_missing_opts_witness :
  generateReport world_ok plain_file
                 {| baseUrl := Some (str "https://matrix.example.org");
                    tempDirectory := Some (str "/tmp"); script := None |} fresh
  = (fresh, Settled (Rejected (Error (str "Expected baseUrl, tempDirectory and script in opts")))).
Proof. apply generateReport_missing_opts. right; right; reflexivity. Defined.

(** C10: on a cache miss [generateReport] requests
    [baseUrl + '/_matrix/media/v1/download/'] followed by the descriptor's
    [url] without its first six code units, whatever these are, and by
    nothing at all when the [url] has six code units or fewer. *)
Theorem generateReport_download_target w D b td sc url st st1 tempDir :
  own_property (str "url") D = Some (JString url) ->
  resultCache st !! fingerprint D = None ->
  mkdtempSync w (td ++ path_sep ++ str "av-") st = (st1, Ok tempDir) ->
  let target := b ++ str "/_matrix/media/v1/download/" ++ drop 6 url in
  httpUrl_of b url = target
  /\ exists st' k,
      generateReport w D {| baseUrl := Some b; tempDirectory := Some td; script := Some sc |} st
      = (st', AwaitRp target k)
      /\ last (trace st') = Some (HttpGet target).
Proof.
  intros Hurl Hmiss Hmk target.
  assert (httpUrl_of b url = target) as Htarget.
  { unfold httpUrl_of, target. do 2 f_equal. exact (slice_from url 6). }
  split; [done|].
  unfold generateReport. cbn [baseUrl tempDirectory script].
  rewrite Hurl, get_fingerprint, Hmiss, Hmk, Htarget.
  eexists _, _. split; [reflexivity|]. simpl. by rewrite last_snoc.
Qed.

Lemma generateReport_download_target_witness :
  exists st' k,
    generateReport world_ok short_url_file opts_ok fresh
    = (st', AwaitRp (str "https://matrix.example.org/_matrix/media/v1/download/") k).
Proof.
  pose (made := mkdtempSync world_ok (str "/tmp" ++ path_sep ++ str "av-") fresh).
  assert (made = (made.1, Ok (str "/tmp/av-aaaaaa"))) as Hmk by (vm_compute; reflexivity).
  destruct (generateReport_download_target
              world_ok short_url_file (str "https://matrix.example.org") (str "/tmp")
              (str "./scan.sh") (str "ab:c") fresh _ _ eq_refl eq_refl Hmk)
    as (_ & st' & k & Hgen & _).
  exists st', k. exact Hgen.
Defined.

(** C6: in a process that has cached nothing, [getReport('constructor')]
    finds the property [resultCache] inherits from [Object.prototype],
    takes it for a cached result and answers [scanned = true], with
    [clean] and [info] undefined. *)
Theorem getReport_constructor :
  resultCache fresh !! str "constructor" = None
  /\ getReport fresh (str "constructor")
     = {| report_clean := None; report_scanned := true; report_info := None |}.
Proof. split; reflexivity. Qed.

(** A secret that is neither cached nor the name of a property of
    [Object.prototype] gets the answer for an unknown secret. *)
Lemma getReport_unknown st secret :
  resultCache st !! secret = None ->
  secret ∉ Object_prototype_keys ->
  getReport st secret
  = {| report_clean := Some false; report_scanned := false;
       report_info := Some (str "Secret not recognised, file not scanned.") |}.
Proof.
  intros Hnone Hproto. unfold getReport, get.
  by rewrite Hnone, bool_decide_eq_false_2.
Qed.

(** In particular a fingerprint, before its descriptor was scanned or
    after the cache was cleared. *)
Lemma getReport_fingerprint_unknown st D :
  resultCache st !! fingerprint D = None ->
  report_scanned (getReport st (fingerprint D)) = false
  /\ report_clean (getReport st (fingerprint D)) = Some false.
Proof.
  intros H. rewrite getReport_unknown; [done..|apply fingerprint_not_inherited].
Qed.

Lemma getReport_after_clearReportCache st D :
  report_scanned (getReport (clearReportCache st) (fingerprint D)) = false.
Proof. by apply getReport_fingerprint_unknown. Qed.

(** ** The secret in the log of [scanReportHandler] *)

Lemma redactedSecret_eq (secret : list N) :
  redactedSecret secret = take 4 secret ++ str "..." ++ drop (length secret - 4) secret.
Proof.
  unfold redactedSecret. f_equal; [exact (slice_to secret 4)|].
  f_equal. apply (slice_last secret 4). lia.
Qed.

(** C8 does not hold as the spec states it: the secret [abc] is rendered
    as [abc...abc], which shows all of it. *)
Lemma redactedSecret_short_secret :
  redactedSecret (str "abc") = str "abc...abc"
  /\ rendered_in_full (str "abc") (redactedSecret (str "abc")).
Proof. split; [reflexivity|]. by exists [], (str "...abc"). Qed.

(** C8, amended: the handler logs the secret as its first four code
    units, three dots and its last four code units (the whole secret on
    either side when it has fewer than four); for a secret of more than
    11 code units this rendering has 11 and does not contain the
    secret. *)
Theorem scanReportHandler_redacts st (secret : list N) :
  (exists rest,
      trace (scanReportHandler secret st).1
      = trace st ++ [ConsoleInfo (str "Returning scan report: secret = "
                                    ++ redactedSecret secret ++ rest)])
  /\ redactedSecret secret = take 4 secret ++ str "..." ++ drop (length secret - 4) secret
  /\ ((11 < length secret)%nat ->
      length (redactedSecret secret) = 11%nat
      /\ ~ rendered_in_full secret (redactedSecret secret)).
Proof.
  split; [|split].
  - unfold scanReportHandler. simpl. eauto.
  - apply redactedSecret_eq.
  - intros Hlen.
    assert (length (redactedSecret secret) = 11%nat) as H11.
    { rewrite redactedSecret_eq, !length_app, length_take, length_drop.
      change (length (str "...")) with 3%nat. lia. }
    split; [done|]. intros (before & after & Heq).
    apply (f_equal length) in Heq. rewrite H11, !length_app in Heq. lia.
Qed.

Lemma scanReportHandler_redacts_witness :
  length (redactedSecret (fingerprint plain_file)) = 11%nat
  /\ ~ rendered_in_full (fingerprint plain_file) (redactedSecret (fingerprint plain_file)).
Proof.
  apply (scanReportHandler_redacts fresh (fingerprint plain_file)).
  apply Nat.ltb_lt. vm_compute. reflexivity.
Defined.
(** ** Paths: [path.join] names an entry of the directory it is given *)

Lemma split_on_nonempty c (s : list N) : split_on c s <> [].
Proof. induction s as [|x s IH]; simpl; [done|]. by destruct (x =? c), (split_on c s). Qed.

Lemma split_on_app c (a b : list N) :
  split_on c (a ++ c :: b) =
  match split_on c b with
  | first :: others => split_on c a ++ first :: others
  | [] => split_on c a
  end.
Proof.
  pose proof (split_on_nonempty c b) as Hb.
  destruct (split_on c b) as [|first others] eqn:Eb; [done|]. clear Hb.
  induction a as [|x a IH]; simpl.
  - by rewrite N.eqb_refl, Eb.
  - rewrite IH. destruct (x =? c); [done|].
    pose proof (split_on_nonempty c a) as Ha. by destruct (split_on c a).
Qed.

Lemma split_on_no_sep c (s seg : list N) : seg ∈ split_on c s -> c ∉ seg.
Proof.
  revert seg. induction s as [|x s IH]; simpl; intros seg Hin.
  - apply list_elem_of_singleton in Hin as ->. apply not_elem_of_nil.
  - destruct (N.eqb_spec x c) as [->|Hne].
    + apply elem_of_cons in Hin as [->|Hin]; [apply not_elem_of_nil|by apply IH].
    + destruct (split_on c s) as [|p ps] eqn:E.
      * apply list_elem_of_singleton in Hin as ->.
        intros [->|[]%not_elem_of_nil]%elem_of_cons. done.
      * apply elem_of_cons in Hin as [->|Hin].
        -- intros [->|Hc]%elem_of_cons; [done|]. revert Hc. apply IH. by left.
        -- apply IH. by right.
Qed.

Lemma split_on_plain c (s : list N) : c ∉ s -> split_on c s = [s].
Proof.
  induction s as [|x s IH]; simpl; [done|]. intros Hc.
  apply not_elem_of_cons in Hc as [Hx Hs].
  destruct (N.eqb_spec x c); [congruence|]. by rewrite IH.
Qed.

(** Splitting what [join_with] put together. *)
Lemma split_on_join c (segs : list (list N)) :
  segs <> [] -> Forall (fun seg => c ∉ seg) segs ->
  split_on c (join_with [c] segs) = segs.
Proof.
  induction segs as [|seg segs IH]; [done|]. intros _ Hall.
  apply Forall_cons in Hall as [Hseg Hall].
  destruct segs as [|seg' segs].
  - simpl. by apply split_on_plain.
  - change (join_with [c] (seg :: seg' :: segs))
      with (seg ++ c :: join_with [c] (seg' :: segs)).
    rewrite split_on_app, IH, split_on_plain by done. done.
Qed.

Lemma push_segment_plain allow kept seg :
  plain_segment seg -> push_segment allow kept seg = seg :: kept.
Proof.
  intros (H1 & H2 & H3). unfold push_segment.
  by rewrite !decide_False by done.
Qed.

Lemma push_segment_kept allow kept seg :
  Forall (fun s => s <> [] /\ s <> str ".") kept ->
  Forall (fun s => s <> [] /\ s <> str ".") (push_segment allow kept seg).
Proof.
  intros Hkept. unfold push_segment.
  repeat case_decide; try done; subst.
  - destruct kept as [|top below]; [destruct allow; by repeat constructor|].
    case_decide; [destruct allow; [by constructor|done]|].
    by apply Forall_cons in Hkept as [_ ?].
  - by constructor.
Qed.

Lemma push_segment_no_dotdot kept seg :
  Forall (fun s => s <> str "..") kept ->
  Forall (fun s => s <> str "..") (push_segment false kept seg).
Proof.
  intros Hkept. unfold push_segment.
  repeat case_decide; try done; subst.
  - destruct kept as [|top below]; [done|].
    case_decide; [done|]. by apply Forall_cons in Hkept as [_ ?].
  - by constructor.
Qed.

Lemma push_segment_no_sep allow kept seg :
  47 ∉ seg -> Forall (fun s => 47 ∉ s) kept ->
  Forall (fun s => 47 ∉ s) (push_segment allow kept seg).
Proof.
  intros Hseg Hkept. unfold push_segment.
  repeat case_decide; try done; subst.
  - destruct kept as [|top below]; [destruct allow; by repeat constructor|].
    case_decide; [destruct allow; [by constructor|done]|].
    by apply Forall_cons in Hkept as [_ ?].
  - by constructor.
Qed.

Lemma fold_push_kept allow segs kept :
  Forall (fun s => s <> [] /\ s <> str ".") kept ->
  Forall (fun s => s <> [] /\ s <> str ".") (fold_left (push_segment allow) segs kept).
Proof.
  revert kept. induction segs as [|seg segs IH]; simpl; [done|].
  intros kept H. by apply IH, push_segment_kept.
Qed.

Lemma fold_push_no_dotdot segs kept :
  Forall (fun s => s <> str "..") kept ->
  Forall (fun s => s <> str "..") (fold_left (push_segment false) segs kept).
Proof.
  revert kept. induction segs as [|seg segs IH]; simpl; [done|].
  intros kept H. by apply IH, push_segment_no_dotdot.
Qed.

Lemma fold_push_no_sep allow segs kept :
  Forall (fun s => 47 ∉ s) segs -> Forall (fun s => 47 ∉ s) kept ->
  Forall (fun s => 47 ∉ s) (fold_left (push_segment allow) segs kept).
Proof.
  revert kept. induction segs as [|seg segs IH]; simpl; [done|].
  intros kept [Hseg Hsegs]%Forall_cons H. by apply IH, push_segment_no_sep.
Qed.

Lemma push_segment_skip allow kept seg :
  seg = [] \/ seg = str "." -> push_segment allow kept seg = kept.
Proof. by intros [->| ->]. Qed.

Lemma push_segment_up_nil allow :
  push_segment allow [] (str "..") = if allow then [str ".."] else [].
Proof. done. Qed.

Lemma push_segment_up_cons allow top below :
  push_segment allow (top :: below) (str "..")
  = if decide (top = str "..") then (if allow then str ".." :: top :: below else top :: below)
    else below.
Proof. done. Qed.

(** Walking the kept segments from a directory [from] leads where walking
    the segments they were kept from leads. *)
Lemma fold_push_replay allow segs kept from :
  Forall (fun s => s <> [] /\ s <> str ".") kept ->
  (allow = false -> from = [] /\ Forall (fun s => s <> str "..") kept) ->
  fold_left (push_segment false) segs (fold_left (push_segment false) (rev kept) from)
  = fold_left (push_segment false) (rev (fold_left (push_segment allow) segs kept)) from.
Proof.
  revert kept. induction segs as [|seg segs IH]; simpl; [done|].
  intros kept Hkept Habs.
  rewrite <- IH.
  2:{ by apply push_segment_kept. }
  2:{ intros ->. destruct (Habs eq_refl) as [-> Hdd]. split; [done|].
      by apply push_segment_no_dotdot. }
  f_equal.
  assert (forall s k, fold_left (push_segment false) (rev (s :: k)) from
                      = push_segment false (fold_left (push_segment false) (rev k) from) s)
    as Hcons by (intros s k; simpl; by rewrite fold_left_app).
  destruct (decide (seg = [])) as [->|Hne]; [by rewrite !push_segment_skip by auto|].
  destruct (decide (seg = str ".")) as [->|Hdot]; [by rewrite !push_segment_skip by auto|].
  destruct (decide (seg = str "..")) as [->|Hdd].
  2:{ rewrite (push_segment_plain allow) by done. symmetry. apply Hcons. }
  destruct kept as [|top below].
  - rewrite push_segment_up_nil. destruct allow; [symmetry; apply Hcons|].
    by destruct (Habs eq_refl) as [-> _].
  - rewrite (push_segment_up_cons allow).
    destruct (decide (top = str "..")) as [->|Htop].
    + destruct allow; [symmetry; apply Hcons|].
      destruct (Habs eq_refl) as [_ [? _]%Forall_cons]. done.
    + apply Forall_cons in Hkept as [[Ht1 Ht2] _].
      rewrite Hcons, (push_segment_plain _ _ top) by done.
      rewrite push_segment_up_cons. by rewrite decide_False.
Qed.

Lemma resolve_unfold cwd (path : list N) :
  FS.resolve cwd path
  = rev (fold_left (push_segment false) (split_on 47 path)
           (match path with
            | c :: _ => if c =? 47 then [] else rev cwd
            | [] => rev cwd
            end)).
Proof. done. Qed.

Lemma split_on_trailing (s : list N) : split_on 47 (s ++ str "/") = split_on 47 s ++ [[]].
Proof. change (str "/") with [47]. by rewrite split_on_app. Qed.

(** Where a path made of the kept segments leads. *)
Lemma resolve_rendered cwd (isAbsolute trailingSeparator : bool) (kept : list (list N)) :
  kept <> [] ->
  Forall (fun s => 47 ∉ s) kept ->
  Forall (fun s => s <> [] /\ s <> str ".") kept ->
  FS.resolve cwd ((if isAbsolute then str "/" else [])
                    ++ (join_with path_sep (rev kept)
                          ++ (if trailingSeparator then str "/" else [])))
  = rev (fold_left (push_segment false) (rev kept) (if isAbsolute then [] else rev cwd)).
Proof.
  intros Hne Hsep Hkept.
  assert (rev kept <> []) as Hrev.
  { intros H. apply (f_equal (@rev _)) in H. by rewrite rev_involutive in H. }
  assert (Forall (fun s => 47 ∉ s) (rev kept)) as Hsep' by (by apply Forall_rev).
  assert (Forall (fun s => s <> [] /\ s <> str ".") (rev kept)) as Hkept'
      by (by apply Forall_rev).
  pose proof (split_on_join 47 (rev kept) Hrev Hsep') as Hsplit.
  change [47] with path_sep in Hsplit.
  assert (split_on 47 (join_with path_sep (rev kept)
                         ++ (if trailingSeparator then str "/" else []))
          = rev kept ++ (if trailingSeparator then [[]] else [])) as Hbody.
  { destruct trailingSeparator; [by rewrite split_on_trailing, Hsplit|].
    by rewrite !app_nil_r. }
  assert (forall from, fold_left (push_segment false)
                         (rev kept ++ (if trailingSeparator then [[]] else [])) from
                       = fold_left (push_segment false) (rev kept) from) as Hfold.
  { intros from. rewrite fold_left_app. by destruct trailingSeparator. }
  rewrite resolve_unfold. destruct isAbsolute.
  - change (str "/" ++ ?x) with (47 :: x). cbn [split_on]. rewrite N.eqb_refl.
    cbn [fold_left]. rewrite push_segment_skip by auto. by rewrite Hbody, Hfold.
  - rewrite !app_nil_l, Hbody, Hfold. do 2 f_equal.
    destruct (rev kept) as [|first others]; [done|].
    apply Forall_cons in Hsep' as [Hfirst _]. apply Forall_cons in Hkept' as [[Hfirst' _] _].
    destruct first as [|c first]; [done|].
    apply not_elem_of_cons in Hfirst as [Hc _].
    destruct others; simpl; destruct (N.eqb_spec c 47); congruence.
Qed.

Lemma resolve_cons cwd c (path : list N) :
  FS.resolve cwd (c :: path)
  = rev (fold_left (push_segment false) (split_on 47 (c :: path))
           (if c =? 47 then [] else rev cwd)).
Proof. done. Qed.

Lemma path_normalize_cons c (path : list N) :
  path_normalize (c :: path)
  = match join_with path_sep
            (rev (fold_left (push_segment (negb (c =? 47))) (split_on 47 (c :: path)) [])) with
    | [] => if c =? 47 then str "/"
            else if bool_decide (last (c :: path) = Some 47) then str "./" else str "."
    | body =>
      (if c =? 47 then str "/" else [])
        ++ (body ++ (if bool_decide (last (c :: path) = Some 47) then str "/" else []))
    end.
Proof.
  unfold path_normalize, normalizeString.
  destruct (join_with _ _); [done|].
  destruct (c =? 47), (bool_decide _); by rewrite ?app_nil_r.
Qed.

Lemma join_with_nonempty sep (first : list N) others :
  first <> [] -> join_with sep (first :: others) <> [].
Proof. destruct first; [done|]. by destruct others. Qed.

(** A normalised path leads where the path leads. *)
Lemma resolve_normalize cwd (path : list N) :
  path <> [] -> FS.resolve cwd (path_normalize path) = FS.resolve cwd path.
Proof.
  destruct path as [|c path']; [done|]. intros _.
  rewrite path_normalize_cons, (resolve_cons cwd c path').
  generalize (bool_decide (last (c :: path') = Some 47)). intros trailingSeparator.
  remember (c =? 47) as isAbsolute eqn:Eabs.
  remember (fold_left (push_segment (negb isAbsolute)) (split_on 47 (c :: path')) [])
    as kept eqn:Ekept.
  assert (Forall (fun s => 47 ∉ s) kept) as Hsep.
  { subst kept. apply fold_push_no_sep; [|done].
    apply Forall_forall. intros s. apply split_on_no_sep. }
  assert (Forall (fun s => s <> [] /\ s <> str ".") kept) as Hkept
      by (subst kept; by apply fold_push_kept).
  assert (fold_left (push_segment false) (split_on 47 (c :: path'))
                    (if isAbsolute then [] else rev cwd)
          = fold_left (push_segment false) (rev kept)
                      (if isAbsolute then [] else rev cwd)) as ->.
  { subst kept. rewrite <- fold_push_replay; [done|done|].
    intros Habs. destruct isAbsolute; [|done]. split; [done|constructor]. }
  clear Ekept Eabs.
  destruct kept as [|top below].
  - simpl. destruct isAbsolute; [done|].
    destruct trailingSeparator; by rewrite resolve_unfold.
  - destruct (join_with path_sep (rev (top :: below))) as [|x body] eqn:Ebody.
    { exfalso. destruct (rev (top :: below)) as [|first others] eqn:Erev.
      - apply (f_equal (@rev _)) in Erev. by rewrite rev_involutive in Erev.
      - revert Ebody. apply join_with_nonempty.
        assert (In first (top :: below)) as Hin.
        { apply in_rev. rewrite Erev. by left. }
        apply (proj1 (List.Forall_forall _ _) Hkept) in Hin. tauto. }
    rewrite <- Ebody. by apply resolve_rendered.
Qed.

(** [path.join] of a directory and a file name leads to the entry of that
    name in the directory. *)
Lemma resolve_join cwd (dir name : list N) :
  dir <> [] -> plain_segment name -> 47 ∉ name ->
  FS.resolve cwd (path_join dir name) = FS.resolve cwd dir ++ [name].
Proof.
  intros Hdir Hplain Hsep.
  assert (path_join dir name = path_normalize (dir ++ str "/" ++ name)) as ->.
  { unfold path_join. destruct dir; [done|]. destruct name; [by destruct Hplain|done]. }
  rewrite resolve_normalize by (by destruct dir).
  destruct dir as [|c dir]; [done|].
  change ((c :: dir) ++ str "/" ++ name) with (c :: (dir ++ 47 :: name)).
  rewrite !resolve_cons.
  change (c :: (dir ++ 47 :: name)) with ((c :: dir) ++ 47 :: name).
  rewrite split_on_app, (split_on_plain 47 name) by done.
  rewrite fold_left_app. simpl fold_left at 1.
  rewrite push_segment_plain by done. done.
Qed.

(** ** The file system: operations inside one directory *)

Lemma in_dir_lookup p f root m :
  FS.lookup p root = Some (Dir m) ->
  FS.in_dir p f root = (m' ← f m; replace_dir p m' root).
Proof.
  unfold replace_dir. revert root. induction p as [|s p IH]; intros root Hlook.
  - simpl in Hlook. simplify_eq. simpl. by destruct (f m).
  - destruct root as [|entries]; [done|]. simpl in *.
    destruct (entries !! s) as [child|]; [|done].
    rewrite (IH _ Hlook). by destruct (f m).
Qed.

Lemma replace_dir_Ok p entries root m :
  FS.lookup p root = Some (Dir m) ->
  exists root', replace_dir p entries root = Ok root'.
Proof.
  unfold replace_dir. revert root. induction p as [|s p IH]; intros root Hlook.
  - simpl in Hlook. simplify_eq. simpl. eauto.
  - destruct root as [|es]; [done|]. simpl in *.
    destruct (es !! s) as [child|]; [|done].
    destruct (IH _ Hlook) as [child' ->]. simpl. eauto.
Qed.

Lemma replace_dir_lookup p entries root root' :
  replace_dir p entries root = Ok root' -> FS.lookup p root' = Some (Dir entries).
Proof.
  unfold replace_dir. revert root root'. induction p as [|s p IH]; intros root root' H.
  - destruct root; simpl in H; by simplify_eq.
  - destruct root as [|es]; [done|]. simpl in H.
    destruct (es !! s) as [child|]; [|done].
    destruct (FS.in_dir p _ child) as [child'|] eqn:E; [|done].
    simpl in H. simplify_eq. simpl. rewrite lookup_insert_eq. by eapply IH.
Qed.

Lemma replace_dir_twice p entries entries' root root' :
  replace_dir p entries root = Ok root' ->
  replace_dir p entries' root' = replace_dir p entries' root.
Proof.
  unfold replace_dir. revert root root'. induction p as [|s p IH]; intros root root' H.
  - destruct root; simpl in H; by simplify_eq.
  - destruct root as [|es]; [done|]. simpl in H.
    destruct (es !! s) as [child|] eqn:Es; [|done].
    destruct (FS.in_dir p _ child) as [child'|] eqn:E; [|done].
    simpl in H. simplify_eq. simpl. rewrite lookup_insert_eq, Es.
    rewrite (IH _ _ E). destruct (FS.in_dir p (fun _ => Ok entries') child); [|done].
    simpl. by rewrite insert_insert_eq.
Qed.

Lemma replace_dir_same p root m :
  FS.lookup p root = Some (Dir m) -> replace_dir p m root = Ok root.
Proof.
  unfold replace_dir. revert root. induction p as [|s p IH]; intros root Hlook.
  - simpl in Hlook. by simplify_eq.
  - destruct root as [|es]; [done|]. simpl in *.
    destruct (es !! s) as [child|] eqn:Es; [|done].
    rewrite (IH _ Hlook). simpl. by rewrite insert_id.
Qed.

Lemma lookup_snoc p name root :
  FS.lookup (p ++ [name]) root =
  match FS.lookup p root with
  | Some (Dir m) => m !! name
  | _ => None
  end.
Proof.
  revert root. induction p as [|s p IH]; intros root; simpl.
  - destruct root as [|m]; [done|]. by destruct (m !! name).
  - destruct root as [|m]; [done|]. destruct (m !! s); [apply IH|done].
Qed.

(** Replacing the entries of a subdirectory is replacing one entry of its
    parent. *)
Lemma replace_dir_snoc p name entries root m sub :
  FS.lookup p root = Some (Dir m) -> m !! name = Some (Dir sub) ->
  replace_dir (p ++ [name]) entries root = replace_dir p (<[name := Dir entries]> m) root.
Proof.
  unfold replace_dir. revert root. induction p as [|s p IH]; intros root Hlook Hname.
  - simpl in Hlook. simplify_eq. simpl. by rewrite Hname.
  - destruct root as [|es]; [done|]. simpl in *.
    destruct (es !! s) as [child|]; [|done]. by rewrite (IH _ Hlook Hname).
Qed.

Lemma at_entry_snoc p name f root :
  FS.at_entry (p ++ [name]) f root = FS.in_dir p (f name) root.
Proof. unfold FS.at_entry. by rewrite last_snoc, removelast_last. Qed.

Lemma in_dir_Ok p f root root' :
  FS.in_dir p f root = Ok root' -> exists m, FS.lookup p root = Some (Dir m).
Proof.
  revert root root'. induction p as [|s p IH]; intros root root' H.
  - destruct root; [done|]. simpl. eauto.
  - destruct root as [|es]; [done|]. simpl in *.
    destruct (es !! s) as [child|]; [|done].
    destruct (FS.in_dir p f child) eqn:E; [|done]. by eapply IH.
Qed.

(** *** The temporary directory of one call

    [root0] is the tree before the call, [parent] the directory
    [mkdtemp] works in, with entries [m0], and [d] the name it chose.
    While the call runs the tree is [root0] with one more entry [d] in
    [parent], a directory with entries [e]. *)
Section tempdir.

Variables (root0 : node) (parent : list (list N)) (d : list N) (m0 : gmap (list N) node).
Hypothesis Hparent : FS.lookup parent root0 = Some (Dir m0).

Local Abbreviation holds := (tempdir_holds root0 parent d m0).

Lemma tempdir_lookup e root : holds e root -> FS.lookup (parent ++ [d]) root = Some (Dir e).
Proof.
  intros H. rewrite lookup_snoc, (replace_dir_lookup _ _ _ _ H). apply lookup_insert_eq.
Qed.

Lemma tempdir_exists e : exists root, holds e root.
Proof. by eapply replace_dir_Ok. Qed.

Lemma in_tempdir e root g :
  holds e root ->
  FS.in_dir (parent ++ [d]) g root
  = (e' ← g e; replace_dir parent (<[d := Dir e']> m0) root0).
Proof.
  intros H. rewrite (in_dir_lookup _ _ _ _ (tempdir_lookup _ _ H)).
  destruct (g e) as [e'|]; [|done]. simpl.
  rewrite (replace_dir_snoc parent d e' root (<[d := Dir e]> m0) e).
  - rewrite insert_insert_eq. by eapply replace_dir_twice.
  - by eapply replace_dir_lookup.
  - apply lookup_insert_eq.
Qed.

Lemma mkdir_tempdir root1 :
  FS.mkdir (parent ++ [d]) root0 = Ok root1 -> m0 !! d = None /\ holds ∅ root1.
Proof.
  unfold FS.mkdir. rewrite at_entry_snoc, (in_dir_lookup _ _ _ _ Hparent).
  destruct (m0 !! d); [done|]. simpl. done.
Qed.

Lemma writeFile_tempdir e root name content :
  holds e root -> (forall sub, e !! name <> Some (Dir sub)) ->
  exists root', FS.writeFile (parent ++ [d] ++ [name]) content root = Ok root'
                /\ holds (<[name := File content]> e) root'.
Proof.
  intros H Hname. destruct (tempdir_exists (<[name := File content]> e)) as [root' Hroot'].
  exists root'. split; [|done]. unfold FS.writeFile.
  rewrite app_assoc, at_entry_snoc, (in_tempdir _ _ _ H).
  destruct (e !! name) as [[|sub]|] eqn:E; try done. by destruct (Hname sub).
Qed.

Lemma readFile_tempdir e root name content :
  holds e root -> e !! name = Some (File content) ->
  FS.readFile (parent ++ [d] ++ [name]) root = Ok content.
Proof.
  intros H Hname. unfold FS.readFile.
  by rewrite app_assoc, lookup_snoc, (tempdir_lookup _ _ H), Hname.
Qed.

Lemma unlink_tempdir e root name content :
  holds e root -> e !! name = Some (File content) ->
  exists root', FS.unlink (parent ++ [d] ++ [name]) root = Ok root'
                /\ holds (delete name e) root'.
Proof.
  intros H Hname. destruct (tempdir_exists (delete name e)) as [root' Hroot'].
  exists root'. split; [|done]. unfold FS.unlink.
  by rewrite app_assoc, at_entry_snoc, (in_tempdir _ _ _ H), Hname.
Qed.

Lemma rmdir_tempdir root :
  m0 !! d = None -> holds ∅ root -> FS.rmdir (parent ++ [d]) root = Ok root0.
Proof.
  intros Hd H. unfold FS.rmdir.
  rewrite at_entry_snoc, (in_dir_lookup _ _ _ _ (replace_dir_lookup _ _ _ _ H)).
  rewrite lookup_insert_eq, map_to_list_empty. simpl.
  rewrite delete_insert_eq, (delete_id _ _ Hd).
  rewrite (replace_dir_twice _ _ _ _ _ H). by apply replace_dir_same.
Qed.

End tempdir.

(** A directory [mkdir] made has a parent and a name in it. *)
Lemma mkdir_Ok p root root' :
  FS.mkdir p root = Ok root' ->
  exists parent d m0, p = parent ++ [d] /\ FS.lookup parent root = Some (Dir m0).
Proof.
  unfold FS.mkdir, FS.at_entry. destruct (last p) as [d|] eqn:Hlast; [|done].
  intros H. destruct (in_dir_Ok _ _ _ _ H) as [m0 Hm0].
  exists (removelast p), d, m0. split; [|done].
  destruct (exists_last (l := p)) as (p' & d' & ->); [by intros ->|].
  rewrite last_snoc in Hlast. simplify_eq. by rewrite removelast_last.
Qed.

(** ** The temporary files of [generateReport] *)

Lemma tmp_suffix_length n v : length (tmp_suffix n v) = n.
Proof. revert v. induction n as [|n IH]; intros v; simpl; [done|]. by rewrite IH. Qed.

Lemma mkdtemp_loop_Ok w attempts prefix st st1 tempDir :
  mkdtemp_loop w attempts prefix st = (st1, Ok tempDir) ->
  tempDir <> []
  /\ FS.mkdir (FS.resolve (cwd w) tempDir) (fs st) = Ok (fs st1)
  /\ resultCache st1 = resultCache st /\ data st1 = data st /\ trace st1 = trace st.
Proof.
  revert st. induction attempts as [|n IH]; intros st H; simpl in H; [done|].
  destruct (FS.mkdir _ _) as [root|code] eqn:Hmkdir.
  - simplify_eq. split; [|done].
    intros Hnil%(f_equal length). rewrite length_app in Hnil. simpl in Hnil. lia.
  - destruct code; try done. by apply IH in H.
Qed.

Lemma mkdtempSync_Ok w prefix st st1 tempDir :
  mkdtempSync w prefix st = (st1, Ok tempDir) ->
  tempDir <> []
  /\ FS.mkdir (FS.resolve (cwd w) tempDir) (fs st) = Ok (fs st1)
  /\ resultCache st1 = resultCache st /\ data st1 = data st /\ trace st1 = trace st.
Proof. apply mkdtemp_loop_Ok. Qed.

Lemma unsafeEncryptedFile_plain :
  plain_segment (str "unsafeEncryptedFile") /\ 47 ∉ str "unsafeEncryptedFile".
Proof. split; [by repeat split|]. refine (bool_decide_unpack _ _). by vm_compute. Qed.

Lemma unsafeFile_plain : plain_segment (str "unsafeFile") /\ 47 ∉ str "unsafeFile".
Proof. split; [by repeat split|]. refine (bool_decide_unpack _ _). by vm_compute. Qed.

(** The two files of a call are two entries of its temporary directory. *)
Lemma filePath_resolve cwd tempDir dir :
  tempDir <> [] -> FS.resolve cwd tempDir = dir ->
  FS.resolve cwd (path_join tempDir (str "unsafeEncryptedFile"))
  = dir ++ [str "unsafeEncryptedFile"]
  /\ FS.resolve cwd (path_join tempDir (str "unsafeFile")) = dir ++ [str "unsafeFile"]
  /\ path_join tempDir (str "unsafeEncryptedFile") <> path_join tempDir (str "unsafeFile").
Proof.
  intros Hne <-.
  destruct unsafeEncryptedFile_plain as [H1 H1'], unsafeFile_plain as [H2 H2'].
  pose proof (resolve_join cwd tempDir _ Hne H1 H1') as E1.
  pose proof (resolve_join cwd tempDir _ Hne H2 H2') as E2.
  repeat split; [done..|]. intros Heq. rewrite Heq, E2 in E1.
  by apply app_inv_head in E1.
Qed.

Arguments FS.mkdir : simpl never.
Arguments FS.writeFile : simpl never.
Arguments FS.readFile : simpl never.
Arguments FS.unlink : simpl never.
Arguments FS.rmdir : simpl never.

Ltac state_simpl :=
  cbn [fs resultCache data draws trace with_fs with_cache with_data with_draws emit].

(** *** One call, from [mkdtempSync] on

    [tempDir] is the directory [mkdtempSync] made: the entry [d] of
    [parent], which was free in the tree [root0] the call started on. *)
Section pipeline.

Variables (w : World) (D : list (list N * JSValue)) (sc url rs tempDir : list N).
Variables (root0 : node) (parent : list (list N)) (d : list N) (m0 : gmap (list N) node).
Hypothesis HtempDir : tempDir <> [].
Hypothesis Hresolve : FS.resolve (cwd w) tempDir = parent ++ [d].
Hypothesis Hparent : FS.lookup parent root0 = Some (Dir m0).
Hypothesis Hfree : m0 !! d = None.

Local Abbreviation filePath := (path_join tempDir (str "unsafeEncryptedFile")).
Local Abbreviation holds := (tempdir_holds root0 parent d m0).

(** Once the scanner has answered, the verdict is cached, the files and
    the directory are removed, and the tree is the one the call started
    on. *)
Lemma after_scan_tempdir dfp e r st :
  holds e (fs st) -> scanning tempDir dfp e ->
  after_scan w url rs tempDir filePath dfp (Ok r) st
  = (with_fs root0
       (with_cache (<[rs := set_resultSecret r rs]> (resultCache st))
          (emit (ConsoleInfo (str "Result: url = " ++ [34] ++ url ++ [34]
                                ++ str ", clean = " ++ string_of_bool (clean r)
                                ++ str ", exit code = " ++ string_of_Z (exitCode r))) st)),
     Settled (Resolved (VResult (set_resultSecret r rs)))).
Proof.
  intros Hholds Hscanning.
  destruct (filePath_resolve (cwd w) tempDir _ HtempDir Hresolve) as (E1 & E2 & Hne).
  rewrite <- !app_assoc in E1, E2.
  unfold after_scan, unlinkSync, rmdirSync, fs_call, throw. state_simpl.
  rewrite E1, Hresolve.
  destruct Hscanning as [(-> & bytes & ->)|(-> & bytes & plaintext & ->)].
  - destruct (unlink_tempdir root0 parent d m0 Hparent _ _ (str "unsafeEncryptedFile") bytes
                Hholds) as (root1 & -> & Hholds1); [apply lookup_singleton_eq|].
    state_simpl. rewrite decide_True by done. state_simpl.
    rewrite delete_singleton_eq in Hholds1.
    by rewrite (rmdir_tempdir root0 parent d m0 Hparent _ Hfree Hholds1).
  - destruct (unlink_tempdir root0 parent d m0 Hparent _ _ (str "unsafeEncryptedFile") bytes
                Hholds) as (root1 & -> & Hholds1).
    { rewrite lookup_insert_ne by done. apply lookup_singleton_eq. }
    state_simpl. rewrite decide_False by done. state_simpl. rewrite E2.
    rewrite delete_insert_ne, delete_singleton_eq in Hholds1 by done.
    destruct (unlink_tempdir root0 parent d m0 Hparent _ _ (str "unsafeFile") plaintext
                Hholds1) as (root2 & -> & Hholds2); [apply lookup_insert_eq|].
    state_simpl. rewrite delete_insert_eq, delete_empty in Hholds2.
    by rewrite (rmdir_tempdir root0 parent d m0 Hparent _ Hfree Hholds2).
Qed.

(** Once the download has arrived it is written to [filePath], decrypted
    to a second file when the descriptor has a [key], and the scanner is
    started; writing cannot fail, decrypting fails only when [decrypt]
    rejects the file. *)
Lemma after_fetch_tempdir bytes st :
  holds ∅ (fs st) ->
  exists root1,
    holds {[ str "unsafeEncryptedFile" := File bytes ]} root1
    /\ let st1 := with_fs root1 (with_data (Some bytes) st) in
       if truthy (own_property (str "key") D) then
         let dfp := path_join tempDir (str "unsafeFile") in
         let st1 := emit (DecryptFile filePath dfp)
                      (emit (ConsoleInfo (str "Decrypting " ++ filePath
                                            ++ str ", writing to " ++ dfp)) st1) in
         match decrypt w bytes D with
         | Err err =>
           after_fetch w D sc url rs tempDir filePath (Ok bytes) st
           = (emit (ConsoleError err) st1,
              Settled (Rejected (ClientError 400 (str "Failed to decrypt file"))))
         | Ok plaintext =>
           exists root2,
             holds (<[ str "unsafeFile" := File plaintext ]>
                      {[ str "unsafeEncryptedFile" := File bytes ]}) root2
             /\ after_fetch w D sc url rs tempDir filePath (Ok bytes) st
                = scan w sc url rs tempDir filePath dfp (with_fs root2 st1)
         end
       else
         after_fetch w D sc url rs tempDir filePath (Ok bytes) st
         = scan w sc url rs tempDir filePath filePath st1.
Proof.
  intros Hholds.
  destruct (filePath_resolve (cwd w) tempDir _ HtempDir Hresolve) as (E1 & E2 & Hne).
  rewrite <- !app_assoc in E1, E2.
  destruct (writeFile_tempdir root0 parent d m0 Hparent _ _ (str "unsafeEncryptedFile") bytes
              Hholds) as (root1 & Hwrite & Hholds1); [by intros sub|].
  rewrite insert_empty in Hholds1.
  exists root1. split; [done|].
  unfold after_fetch, writeFileSync, fs_call. state_simpl. rewrite E1, Hwrite.
  destruct (truthy _); [|done].
  unfold decryptFile, writeFileSync, fs_call. state_simpl. rewrite E1, E2.
  rewrite (readFile_tempdir root0 parent d m0 _ _ _ bytes Hholds1)
    by apply lookup_singleton_eq.
  destruct (decrypt w bytes D) as [plaintext|err]; [|done].
  destruct (writeFile_tempdir root0 parent d m0 Hparent _ _ (str "unsafeFile") plaintext
              Hholds1) as (root2 & Hwrite2 & Hholds2).
  { intros sub. by rewrite lookup_singleton_ne. }
  exists root2. split; [done|]. cbn [mbind result_bind]. state_simpl. by rewrite Hwrite2.
Qed.

End pipeline.

Lemma scans_emit e st : scans (emit e st) = (scans st + if is_scan e then 1 else 0)%nat.
Proof.
  unfold scans. cbn [trace emit]. rewrite filter_app, length_app.
  destruct e; simpl; rewrite ?decide_True, ?decide_False by done; done.
Qed.

Lemma scans_with_fs root st : scans (with_fs root st) = scans st.
Proof. done. Qed.
Lemma scans_with_cache c st : scans (with_cache c st) = scans st.
Proof. done. Qed.
Lemma scans_with_data x st : scans (with_data x st) = scans st.
Proof. done. Qed.

Ltac scans_simpl :=
  repeat first [rewrite scans_emit | rewrite scans_with_fs | rewrite scans_with_cache
               | rewrite scans_with_data].

(** ** A call that misses the cache

    What a call does once [mkdtempSync] has made its directory: the
    outcome is decided by the answers of the media server, of [decrypt]
    and of the scanner, and by nothing else.  The cache is written only
    when all three have answered; the call then also leaves the file
    system as it found it. *)
Lemma generate_miss_outcome w D b td sc url st st1 tempDir :
  own_property (str "url") D = Some (JString url) ->
  resultCache st !! fingerprint D = None ->
  mkdtempSync w (td ++ path_sep ++ str "av-") st = (st1, Ok tempDir) ->
  exists st' o,
    generate w D {| baseUrl := Some b; tempDirectory := Some td; script := Some sc |} st
    = (st', o)
    /\ match rp w (httpUrl_of b url) with
       | Err _ =>
         o = Rejected (ClientError 502 (str "Failed to get requested URL"))
         /\ resultCache st' = resultCache st /\ scans st' = scans st
       | Ok bytes =>
         match (if truthy (own_property (str "key") D) then decrypt w bytes D else Ok bytes) with
         | Err _ =>
           o = Rejected (ClientError 400 (str "Failed to decrypt file"))
           /\ resultCache st' = resultCache st /\ scans st' = scans st
         | Ok _ =>
           exists dfp root,
             scans st' = S (scans st)
             /\ match executeCommand w (sc ++ str " " ++ dfp) root with
                | Err err => o = Rejected err /\ resultCache st' = resultCache st
                | Ok r =>
                  o = Resolved (VResult (set_resultSecret r (fingerprint D)))
                  /\ resultCache st'
                     = <[fingerprint D := set_resultSecret r (fingerprint D)]> (resultCache st)
                  /\ fs st' = fs st
                end
         end
       end.
Proof.
  intros Hurl Hmiss Hmk.
  destruct (mkdtempSync_Ok _ _ _ _ _ Hmk) as (HtempDir & Hmkdir & Hc & _ & Ht).
  destruct (mkdir_Ok _ _ _ Hmkdir) as (parent & d & m0 & Hresolve & Hparent).
  rewrite Hresolve in Hmkdir.
  destruct (mkdir_tempdir _ _ _ _ Hparent _ Hmkdir) as [Hfree Hholds].
  assert (scans st1 = scans st) as Hscans by (unfold scans; by rewrite Ht).
  unfold generate, generateReport. cbn [baseUrl tempDirectory script].
  rewrite Hurl, get_fingerprint, Hmiss, Hmk. cbn [complete].
  match goal with
  | |- context [after_fetch _ _ _ _ _ _ _ _ ?s] => change (fs st1) with (fs s) in Hholds
  end.
  destruct (rp w (httpUrl_of b url)) as [bytes|err].
  2:{ eexists _, _. split; [done|]. state_simpl. scans_simpl. simpl.
      split_and!; [done..|lia]. }
  destruct (after_fetch_tempdir w D sc url (fingerprint D) tempDir (fs st) parent d m0
              HtempDir Hresolve Hparent bytes _ Hholds) as (root1 & Hholds1 & Hfetch).
  cbv zeta in Hfetch.
  destruct (truthy _).
  - destruct (decrypt w bytes D) as [plaintext|err].
    + destruct Hfetch as (root2 & Hholds2 & ->). unfold scan. cbn [complete].
      match goal with
      | |- context [after_scan _ _ _ _ _ _ (executeCommand w ?cmd ?root) _] =>
        destruct (executeCommand w cmd root) as [r|e] eqn:Hexec
      end.
      * match goal with
        | |- context [after_scan _ _ _ _ _ ?dfp (Ok r) ?s] =>
          rewrite (after_scan_tempdir w url (fingerprint D) tempDir (fs st) parent d m0
                     HtempDir Hresolve Hparent Hfree dfp _ r s Hholds2)
        end.
        2:{ right. split; [done|]. eauto. }
        eexists _, _. split; [done|]. eexists _, _. rewrite Hexec. state_simpl.
        scans_simpl. rewrite Hc, Hscans. simpl. split_and!; [lia|done..].
      * eexists _, _. split; [done|]. eexists _, _. rewrite Hexec. state_simpl.
        scans_simpl. rewrite Hc, Hscans. simpl. split_and!; [lia|done..].
    + rewrite Hfetch. cbn [complete]. eexists _, _. split; [done|]. state_simpl.
      scans_simpl. rewrite Hscans. simpl. split_and!; [done..|lia].
  - rewrite Hfetch. unfold scan. cbn [complete].
    match goal with
    | |- context [after_scan _ _ _ _ _ _ (executeCommand w ?cmd ?root) _] =>
      destruct (executeCommand w cmd root) as [r|e] eqn:Hexec
    end.
    + match goal with
      | |- context [after_scan _ _ _ _ _ ?dfp (Ok r) ?s] =>
        rewrite (after_scan_tempdir w url (fingerprint D) tempDir (fs st) parent d m0
                   HtempDir Hresolve Hparent Hfree dfp _ r s Hholds1)
      end.
      2:{ left. split; [done|]. eauto. }
      eexists _, _. split; [done|]. eexists _, _. rewrite Hexec. state_simpl.
      scans_simpl. rewrite Hc, Hscans. simpl. split_and!; [lia|done..].
    + eexists _, _. split; [done|]. eexists _, _. rewrite Hexec. state_simpl.
      scans_simpl. rewrite Hc, Hscans. simpl. split_and!; [lia|done..].
Qed.
(** A call that fails leaves the cache as it was: whatever goes wrong
    goes wrong before the verdict is stored. *)
Lemma generate_rejected_keeps_cache w D opts st st' e :
  generate w D opts st = (st', Rejected e) -> resultCache st' = resultCache st.
Proof.
  intros H.
  destruct opts as [[b|] [td|] [sc|]];
    try (unfold generate, generateReport, throw in H; simpl in H; by simplify_eq).
  destruct (own_property (str "url") D) as [[url| | | | |]|] eqn:Hurl;
    try (unfold generate, generateReport, throw in H; cbn [baseUrl tempDirectory script] in H;
         rewrite Hurl in H; simpl in H; by simplify_eq).
  destruct (resultCache st !! fingerprint D) as [r|] eqn:Hget.
  { unfold generate, generateReport in H. cbn [baseUrl tempDirectory script] in H.
    rewrite Hurl, get_fingerprint, Hget in H. simpl in H. by simplify_eq. }
  destruct (mkdtempSync w (td ++ path_sep ++ str "av-") st) as [st1 [tempDir|err]] eqn:Hmk.
  - destruct (generate_miss_outcome w D b td sc url st st1 tempDir Hurl Hget Hmk)
      as (st'' & o & Hgen & Hcases).
    rewrite Hgen in H. simplify_eq.
    destruct (rp w _); [|by destruct Hcases as (_ & ? & _)].
    destruct (if truthy _ then _ else _); [|by destruct Hcases as (_ & ? & _)].
    destruct Hcases as (dfp & root & _ & Hcases).
    destruct (executeCommand w _ _); [by destruct Hcases|by destruct Hcases].
  - unfold generate, generateReport, throw in H. cbn [baseUrl tempDirectory script] in H.
    rewrite Hurl, get_fingerprint, Hget, Hmk in H. simpl in H. simplify_eq.
    by apply mkdtempSync_frame in Hmk as (? & _).
Qed.

(** C4: when [generateReport] fails with the error of a failed download
    (502) or of a failed decryption (400), the cache is as it was before
    the call and holds nothing under the descriptor's fingerprint.  A
    later call for the descriptor, in a world where the download, the
    decryption and the scanner succeed, then runs the scanner, returns
    its verdict and stores it under the fingerprint. *)
Theorem generateReport_failure_is_not_cached w D b td sc st st' status message :
  let opts := {| baseUrl := Some b; tempDirectory := Some td; script := Some sc |} in
  generate w D opts st = (st', Rejected (ClientError status message)) ->
  resultCache st' = resultCache st
  /\ resultCache st' !! fingerprint D = None
  /\ exists url,
      own_property (str "url") D = Some (JString url)
      /\ forall w2 st1 tempDir bytes r,
          mkdtempSync w2 (td ++ path_sep ++ str "av-") st' = (st1, Ok tempDir) ->
          rp w2 (httpUrl_of b url) = Ok bytes ->
          (truthy (own_property (str "key") D) = true ->
           exists plaintext, decrypt w2 bytes D = Ok plaintext) ->
          (forall cmd root, executeCommand w2 cmd root = Ok r) ->
          exists st'',
            generate w2 D opts st' = (st'', Resolved (VResult (set_resultSecret r (fingerprint D))))
            /\ resultCache st'' !! fingerprint D = Some (set_resultSecret r (fingerprint D))
            /\ scans st'' = S (scans st')
            /\ fs st'' = fs st'.
Proof.
  intros opts H.
  pose proof (generate_rejected_keeps_cache _ _ _ _ _ _ H) as Hcache.
  pose proof (generate_cache _ _ _ _ _ _ H) as [Hsys|[_ Hmiss]]; [done|].
  specialize (Hmiss _ _ eq_refl).
  split; [done|]. split; [by rewrite Hcache|].
  destruct (own_property (str "url") D) as [[url| | | | |]|] eqn:Hurl;
    try (unfold generate, generateReport, throw, opts in H;
         cbn [baseUrl tempDirectory script] in H; rewrite Hurl in H; simpl in H; by simplify_eq).
  exists url. split; [done|].
  intros w2 st1 tempDir bytes r Hmk Hrp Hdecrypt Hexec.
  rewrite <- Hcache in Hmiss.
  destruct (generate_miss_outcome w2 D b td sc url st' st1 tempDir Hurl Hmiss Hmk)
    as (st'' & o & Hgen & Hcases).
  rewrite Hrp in Hcases.
  assert (exists dfp root,
             scans st'' = S (scans st')
             /\ match executeCommand w2 (sc ++ str " " ++ dfp) root with
                | Err err => o = Rejected err /\ resultCache st'' = resultCache st'
                | Ok r =>
                  o = Resolved (VResult (set_resultSecret r (fingerprint D)))
                  /\ resultCache st''
                     = <[fingerprint D := set_resultSecret r (fingerprint D)]> (resultCache st')
                  /\ fs st'' = fs st'
                end) as (dfp & root & Hscans & Hout)
      by (revert Hcases Hdecrypt; destruct (truthy _); intros Hcases Hdecrypt;
          [by destruct (Hdecrypt eq_refl) as [? Hd]; rewrite Hd in Hcases|done]).
  rewrite Hexec in Hout. destruct Hout as (-> & Hc & Hfs).
  exists st''. split; [done|]. rewrite Hc, lookup_insert_eq. done.
Qed.

Lemma generateReport_failure_is_not_cached_witness :
  let failed := generate world_decrypt_fails encrypted_file opts_ok fresh in
  resultCache failed.1 !! fingerprint encrypted_file = None
  /\ exists st'',
      generate world_ok encrypted_file opts_ok failed.1
      = (st'', Resolved (VResult (set_resultSecret verdict_clean (fingerprint encrypted_file))))
      /\ resultCache st'' !! fingerprint encrypted_file
         = Some (set_resultSecret verdict_clean (fingerprint encrypted_file)).
Proof.
  intros failed.
  assert (failed = (failed.1, Rejected (ClientError 400 (str "Failed to decrypt file"))))
    as Hfailed by (vm_compute; reflexivity).
  destruct (generateReport_failure_is_not_cached
              world_decrypt_fails encrypted_file (str "https://matrix.example.org")
              (str "/tmp") (str "./scan.sh") fresh _ _ _ Hfailed)
    as (_ & Hnone & url & Hurl & Hretry).
  split; [exact Hnone|].
  pose (made := mkdtempSync world_ok (str "/tmp" ++ path_sep ++ str "av-") failed.1).
  assert (made = (made.1, Ok (str "/tmp/av-baaaaa"))) as Hmk by (vm_compute; reflexivity).
  destruct (Hretry world_ok _ _ [37; 80; 68; 70] verdict_clean Hmk)
    as (st'' & Hgen & Hsome & _).
  - reflexivity.
  - intros _. eexists. reflexivity.
  - reflexivity.
  - exists st''. split; [exact Hgen|exact Hsome].
Defined.

(** C2: when the download fails, the directory [mkdtempSync] made for the
    call is still there after the call; when the decryption fails, so is
    the downloaded file in it.  The two [throw] statements leave
    [generateReport] without the [unlinkSync] and [rmdirSync] calls of
    its last lines. *)
Theorem generateReport_failure_leaves_temporary_files :
  (let failed := generate world_fetch_fails plain_file opts_ok fresh in
   failed.2 = Rejected (ClientError 502 (str "Failed to get requested URL"))
   /\ FS.lookup [str "tmp"; str "av-aaaaaa"] (fs fresh) = None
   /\ FS.lookup [str "tmp"; str "av-aaaaaa"] (fs failed.1) = Some (Dir ∅))
  /\ (let failed := generate world_decrypt_fails encrypted_file opts_ok fresh in
      failed.2 = Rejected (ClientError 400 (str "Failed to decrypt file"))
      /\ FS.lookup [str "tmp"; str "av-aaaaaa"; str "unsafeEncryptedFile"] (fs fresh) = None
      /\ FS.lookup [str "tmp"; str "av-aaaaaa"; str "unsafeEncryptedFile"] (fs failed.1)
         = Some (File [37; 80; 68; 70])).
Proof. vm_compute. repeat split. Qed.

(** This is so for every call: when the download fails, the directory
    [mkdtempSync] made is an empty directory of the tree the call leaves
    behind. *)
Lemma generateReport_fetch_failure_keeps_tempDir w D b td sc url st st1 tempDir err :
  own_property (str "url") D = Some (JString url) ->
  resultCache st !! fingerprint D = None ->
  mkdtempSync w (td ++ path_sep ++ str "av-") st = (st1, Ok tempDir) ->
  rp w (httpUrl_of b url) = Err err ->
  exists st',
    generate w D {| baseUrl := Some b; tempDirectory := Some td; script := Some sc |} st
    = (st', Rejected (ClientError 502 (str "Failed to get requested URL")))
    /\ FS.lookup (FS.resolve (cwd w) tempDir) (fs st) = None
    /\ FS.lookup (FS.resolve (cwd w) tempDir) (fs st') = Some (Dir ∅).
Proof.
  intros Hurl Hmiss Hmk Hrp.
  destruct (mkdtempSync_Ok _ _ _ _ _ Hmk) as (HtempDir & Hmkdir & _).
  destruct (mkdir_Ok _ _ _ Hmkdir) as (parent & d & m0 & Hresolve & Hparent).
  rewrite Hresolve in *.
  destruct (mkdir_tempdir _ _ _ _ Hparent _ Hmkdir) as [Hfree Hholds].
  unfold generate, generateReport. cbn [baseUrl tempDirectory script].
  rewrite Hurl, get_fingerprint, Hmiss, Hmk. cbn [complete]. rewrite Hrp.
  eexists. split; [done|]. state_simpl.
  rewrite lookup_snoc, Hparent, Hfree. split; [done|].
  by apply (tempdir_lookup (fs st) parent d m0).
Qed.

(** On the path without failures the files and the directory are removed:
    the call leaves the file system as it found it. *)
Lemma generateReport_success_removes_temporary_files w D b td sc url st st1 tempDir st' v :
  own_property (str "url") D = Some (JString url) ->
  resultCache st !! fingerprint D = None ->
  mkdtempSync w (td ++ path_sep ++ str "av-") st = (st1, Ok tempDir) ->
  generate w D {| baseUrl := Some b; tempDirectory := Some td; script := Some sc |} st
  = (st', Resolved v) ->
  fs st' = fs st.
Proof.
  intros Hurl Hmiss Hmk H.
  destruct (generate_miss_outcome w D b td sc url st st1 tempDir Hurl Hmiss Hmk)
    as (st'' & o & Hgen & Hcases).
  rewrite Hgen in H. simplify_eq.
  destruct (rp w _); [|by destruct Hcases].
  destruct (if truthy _ then _ else _); [|by destruct Hcases].
  destruct Hcases as (dfp & root & _ & Hcases).
  destruct (executeCommand w _ _); [by destruct Hcases as (_ & _ & ?)|by destruct Hcases].
Qed.

(** C3 does not hold as the spec states it: two descriptors with the same
    two properties in different orders have different fingerprints. *)
Lemma fingerprint_depends_on_property_order :
  plain_file ≡ₚ plain_file_reordered
  /\ fingerprint plain_file <> fingerprint plain_file_reordered.
Proof.
  split; [apply perm_swap|]. vm_compute. discriminate.
Qed.

(** ** Two calls at once *)






(** ** Reading back what [JSON.stringify] wrote *)

Lemma unescape_check_from_spec n c0 c :
  unescape_check_from n c0 = true -> c0 <= c < c0 + N.of_nat n -> unescape_check c = true.
Proof.
  revert c0. induction n as [|n IH]; intros c0 Hall Hc; [lia|].
  cbn [unescape_check_from] in Hall. apply andb_prop in Hall as [Hhere Hrest].
  destruct (N.eq_dec c c0) as [->|Hne]; [done|].
  apply (IH (N.succ c0)); [done|lia].
Qed.

Lemma unescape_check_all : unescape_check_from (N.to_nat 65536) 0 = true.
Proof. vm_compute. reflexivity. Qed.

Lemma unquote_unicode_escape c tail :
  c < 65536 ->
  unquote_body (unicode_escape c ++ tail)
  = match unquote_body tail with
    | Some (t, r) => Some (c :: t, r)
    | None => None
    end.
Proof.
  intros Hc.
  assert (unescape_check c = true) as Hcheck.
  { apply (unescape_check_from_spec _ 0 c unescape_check_all). lia. }
  unfold unescape_check, unicode_escape in *.
  remember (hex_digit (N.land (N.shiftr c 12) 15)) as h1 eqn:E1.
  remember (hex_digit (N.land (N.shiftr c 8) 15)) as h2 eqn:E2.
  remember (hex_digit (N.land (N.shiftr c 4) 15)) as h3 eqn:E3.
  remember (hex_digit (N.land c 15)) as h4 eqn:E4.
  clear E1 E2 E3 E4.
  assert (forall tl,
             unquote_body ((str "\u" ++ [h1; h2; h3; h4]) ++ tl)
             = match hex_value h1, hex_value h2, hex_value h3, hex_value h4 with
               | Some v1, Some v2, Some v3, Some v4 =>
                 match unquote_body tl with
                 | Some (t, r) => Some ((((v1 * 16 + v2) * 16 + v3) * 16 + v4) :: t, r)
                 | None => None
                 end
               | _, _, _, _ => None
               end) as Hu by reflexivity.
  rewrite Hu in Hcheck |- *.
  destruct (hex_value h1), (hex_value h2), (hex_value h3), (hex_value h4); try done.
  cbn [unquote_body] in Hcheck. change (34 =? 34) with true in Hcheck. cbv iota in Hcheck.
  by apply N.eqb_eq in Hcheck as ->.
Qed.

Lemma unquote_literal c tail :
  c <> 34 -> c <> 92 ->
  unquote_body (c :: tail)
  = match unquote_body tail with
    | Some (t, r) => Some (c :: t, r)
    | None => None
    end.
Proof.
  intros H34 H92. cbn [unquote_body].
  by rewrite (proj2 (N.eqb_neq c 34) H34), (proj2 (N.eqb_neq c 92) H92).
Qed.

Lemma unquote_escape_codeunit c tail :
  unquote_body (escape_codeunit c ++ tail)
  = match unquote_body tail with
    | Some (t, r) => Some (c :: t, r)
    | None => None
    end.
Proof.
  unfold escape_codeunit.
  destruct (N.eqb_spec c 8) as [->|?]; [done|].
  destruct (N.eqb_spec c 9) as [->|?]; [done|].
  destruct (N.eqb_spec c 10) as [->|?]; [done|].
  destruct (N.eqb_spec c 12) as [->|?]; [done|].
  destruct (N.eqb_spec c 13) as [->|?]; [done|].
  destruct (N.eqb_spec c 34) as [->|?]; [done|].
  destruct (N.eqb_spec c 92) as [->|?]; [done|].
  destruct (N.ltb_spec c 32); [apply unquote_unicode_escape; lia|].
  by apply unquote_literal.
Qed.

Lemma surrogate_bounds c :
  is_lead_surrogate c = true \/ is_trail_surrogate c = true ->
  c < 65536 /\ c <> 34 /\ c <> 92.
Proof.
  unfold is_lead_surrogate, is_trail_surrogate.
  intros [[H1 H2]%andb_prop|[H1 H2]%andb_prop];
    apply N.leb_le in H1, H2; lia.
Qed.

(** What [quote] wrote is read back as the string it was given. *)
Lemma unquote_quote_body (s tail : list N) :
  unquote_body (quote_body s ++ 34 :: tail) = Some (s, tail).
Proof.
  remember (length s) as n eqn:Hn.
  assert (length s <= n)%nat as Hlen by lia. clear Hn.
  revert s Hlen. induction n as [|n IH]; intros s Hlen.
  { destruct s; [done|simpl in Hlen; lia]. }
  destruct s as [|c rest]; [done|]. simpl in Hlen.
  cbn [quote_body].
  destruct (is_lead_surrogate c) eqn:Hlead.
  - destruct (surrogate_bounds c (or_introl Hlead)) as (Hc & H34 & H92).
    destruct rest as [|d rest'].
    + by rewrite unquote_unicode_escape.
    + destruct (is_trail_surrogate d) eqn:Htrail.
      * destruct (surrogate_bounds d (or_intror Htrail)) as (_ & H34' & H92').
        cbn [app]. rewrite !unquote_literal by done.
        rewrite IH by (simpl in Hlen; lia). done.
      * rewrite <- app_assoc, unquote_unicode_escape by done.
        rewrite IH by lia. done.
  - destruct (is_trail_surrogate c) eqn:Htrail.
    + destruct (surrogate_bounds c (or_intror Htrail)) as (Hc & _).
      rewrite <- app_assoc, unquote_unicode_escape by done.
      rewrite IH by lia. done.
    + rewrite <- app_assoc, unquote_escape_codeunit. rewrite IH by lia. done.
Qed.

(** ** The fingerprint and the order of the properties *)

Lemma join_with_cons sep (x : list N) (rest : list (list N)) :
  join_with sep (x :: rest)
  = x ++ match rest with
         | [] => []
         | _ :: _ => sep ++ join_with sep rest
         end.
Proof. destruct rest; cbn [join_with]; [by rewrite app_nil_r|done]. Qed.

Lemma join_with_app_cons sep (before : list (list N)) x rest :
  join_with sep (before ++ x :: rest)
  = concat (map (fun p => p ++ sep) before) ++ join_with sep (x :: rest).
Proof.
  induction before as [|p before IH]; [done|].
  cbn [app map concat]. rewrite <- app_assoc, <- app_assoc, <- IH.
  by destruct (before ++ x :: rest) eqn:E; [destruct before; discriminate E|].
Qed.

(** The first name in which the property lists of two objects differ
    shows in what [JSON.stringify] writes for them. *)
Lemma stringify_first_name before k1 v1 rest1 k2 v2 rest2 :
  stringify (JObject (before ++ (k1, v1) :: rest1))
  = stringify (JObject (before ++ (k2, v2) :: rest2)) ->
  k1 = k2.
Proof.
  intros H.
  assert (forall props, stringify (JObject props)
                        = str "{" ++ join_with (str ",")
                                       (map (fun kv : list N * JSValue =>
                                               let (k, x) := kv in
                                               quote k ++ str ":" ++ stringify x) props)
                            ++ str "}") as Hobject by done.
  rewrite !Hobject, !map_app, !map_cons, !join_with_app_cons, !join_with_cons in H.
  apply app_inv_head in H. rewrite <- !app_assoc in H. apply app_inv_head in H.
  unfold quote in H. rewrite <- !app_assoc in H. cbn [app] in H.
  injection H as H. apply (f_equal unquote_body) in H.
  rewrite !unquote_quote_body in H. by simplify_eq.
Qed.

Lemma stringify_property_order (D1 D2 : list (list N * JSValue)) :
  NoDup D1.*1 -> D1 ≡ₚ D2 -> D1 <> D2 ->
  stringify (JObject D1) <> stringify (JObject D2).
Proof.
  intros Hnodup Hperm Hne Heq.
  assert (exists before k1 v1 rest1 k2 v2 rest2,
             D1 = before ++ (k1, v1) :: rest1 /\ D2 = before ++ (k2, v2) :: rest2
             /\ k1 <> k2) as (before & k1 & v1 & rest1 & k2 & v2 & rest2 & -> & -> & Hk).
  { clear Heq. revert D2 Hperm Hne.
    induction D1 as [|[k1 v1] D1 IH]; intros D2 Hperm Hne.
    { apply Permutation_nil_l in Hperm. by subst. }
    destruct D2 as [|[k2 v2] D2]; [by apply Permutation_nil_r in Hperm|].
    apply NoDup_cons in Hnodup as [Hk1 Hnodup].
    destruct (decide (k1 = k2)) as [<-|Hk]; [|by exists [], k1, v1, D1, k2, v2, D2].
    assert (v2 = v1) as ->.
    { assert ((k1, v2) ∈ (k1, v1) :: D1) as Hin by (rewrite Hperm; left).
      apply elem_of_cons in Hin as [?|Hin]; [by simplify_eq|].
      destruct Hk1. by apply (list_elem_of_fmap_2 fst) in Hin. }
    apply Permutation_cons_inv in Hperm.
    destruct (IH Hnodup D2 Hperm) as (before & ka & va & ra & kb & vb & rb & -> & -> & Hk);
      [congruence|].
    by exists ((k1, v1) :: before), ka, va, ra, kb, vb, rb. }
  by apply stringify_first_name in Heq.
Qed.

(** C3, amended: nothing is put in a canonical order before hashing.
    The fingerprint is the base64 SHA-256 digest of what [JSON.stringify]
    writes for the descriptor, its properties in the order the object
    enumerates them.  A descriptor has the same fingerprint every time;
    two objects that have the same properties and enumerate them in
    different orders are written differently, so that they are hashed
    from different texts. *)
Theorem fingerprint_hashes_the_ordered_properties (D1 D2 : list (list N * JSValue)) :
  fingerprint D1 = base64sha256 (stringify (JObject D1))
  /\ (D1 = D2 -> fingerprint D1 = fingerprint D2)
  /\ (NoDup D1.*1 -> D1 ≡ₚ D2 -> D1 <> D2 ->
      stringify (JObject D1) <> stringify (JObject D2)).
Proof.
  split; [done|]. split; [by intros ->|]. apply stringify_property_order.
Qed.

Lemma fingerprint_hashes_the_ordered_properties_witness :
  stringify (JObject plain_file) <> stringify (JObject plain_file_reordered).
Proof.
  apply (fingerprint_hashes_the_ordered_properties plain_file plain_file_reordered).
  - apply (bool_decide_unpack _). vm_compute. reflexivity.
  - apply perm_swap.
  - vm_compute. discriminate.
Defined.

(** ** A call that misses the cache, step by step *)

Lemma generate_miss_scan w D b td sc url st st1 tempDir bytes content :
  own_property (str "url") D = Some (JString url) ->
  resultCache st !! fingerprint D = None ->
  mkdtempSync w (td ++ path_sep ++ str "av-") st = (st1, Ok tempDir) ->
  rp w (httpUrl_of b url) = Ok bytes ->
  (if truthy (own_property (str "key") D) then decrypt w bytes D else Ok bytes) = Ok content ->
  let opts := {| baseUrl := Some b; tempDirectory := Some td; script := Some sc |} in
  let dfp := scanned_path tempDir D in
  exists root st' o,
    generate w D opts st = (st', o)
    /\ FS.readFile (FS.resolve (cwd w) (path_join tempDir (str "unsafeEncryptedFile"))) root
       = Ok bytes
    /\ FS.readFile (FS.resolve (cwd w) dfp) root = Ok content
    /\ data st' = Some bytes
    /\ match executeCommand w (sc ++ str " " ++ dfp) root with
       | Ok r =>
         o = Resolved (VResult (set_resultSecret r (fingerprint D)))
         /\ resultCache st'
            = <[fingerprint D := set_resultSecret r (fingerprint D)]> (resultCache st)
         /\ fs st' = fs st
         /\ trace st'
            = trace st ++ events_before_verdict b sc url tempDir D
                ++ [ConsoleInfo (str "Result: url = " ++ [34] ++ url ++ [34]
                                   ++ str ", clean = " ++ string_of_bool (clean r)
                                   ++ str ", exit code = " ++ string_of_Z (exitCode r))]
       | Err err =>
         o = Rejected err
         /\ resultCache st' = resultCache st
         /\ fs st' = root
         /\ trace st' = trace st ++ events_before_verdict b sc url tempDir D
       end.
Proof.
  intros Hurl Hmiss Hmk Hrp Hcontent opts dfp.
  destruct (mkdtempSync_Ok _ _ _ _ _ Hmk) as (HtempDir & Hmkdir & Hc & _ & Ht).
  destruct (mkdir_Ok _ _ _ Hmkdir) as (parent & d & m0 & Hresolve & Hparent).
  rewrite Hresolve in Hmkdir.
  destruct (mkdir_tempdir _ _ _ _ Hparent _ Hmkdir) as [Hfree Hholds].
  destruct (filePath_resolve (cwd w) tempDir _ HtempDir Hresolve) as (E1 & E2 & Hne).
  rewrite <- !app_assoc in E1, E2.
  unfold generate, generateReport, opts, dfp, events_before_verdict, scanned_path.
  cbn [baseUrl tempDirectory script].
  rewrite Hurl, get_fingerprint, Hmiss, Hmk. cbn [complete].
  match goal with
  | |- context [after_fetch _ _ _ _ _ _ _ _ ?s] => change (fs st1) with (fs s) in Hholds
  end.
  rewrite Hrp.
  destruct (after_fetch_tempdir w D sc url (fingerprint D) tempDir (fs st) parent d m0
              HtempDir Hresolve Hparent bytes _ Hholds) as (root1 & Hholds1 & Hfetch).
  cbv zeta in Hfetch.
  destruct (truthy _).
  - rewrite Hcontent in Hfetch. destruct Hfetch as (root2 & Hholds2 & ->).
    unfold scan. cbn [complete]. state_simpl.
    exists root2. rewrite E1, E2.
    rewrite (readFile_tempdir (fs st) parent d m0 _ _ _ bytes Hholds2)
      by (rewrite lookup_insert_ne by done; apply lookup_singleton_eq).
    rewrite (readFile_tempdir (fs st) parent d m0 _ _ _ content Hholds2)
      by apply lookup_insert_eq.
    destruct (executeCommand w _ root2) as [r|e] eqn:Hexec.
    + match goal with
      | |- context [after_scan _ _ _ _ _ ?dfp (Ok r) ?s] =>
        rewrite (after_scan_tempdir w url (fingerprint D) tempDir (fs st) parent d m0
                   HtempDir Hresolve Hparent Hfree dfp _ r s Hholds2)
      end.
      2:{ right. split; [done|]. eauto. }
      eexists _, _. cbn [complete]. split; [done|]. state_simpl.
      rewrite Hc, Ht, <- !app_assoc. split_and!; done.
    + eexists _, _. unfold after_scan, throw. cbn [complete]. split; [done|].
      state_simpl. rewrite Hc, Ht, <- !app_assoc. split_and!; done.
  - simplify_eq. rewrite Hfetch. unfold scan. cbn [complete]. state_simpl.
    exists root1. rewrite E1.
    rewrite (readFile_tempdir (fs st) parent d m0 _ _ _ content Hholds1)
      by apply lookup_singleton_eq.
    destruct (executeCommand w _ root1) as [r|e] eqn:Hexec.
    + match goal with
      | |- context [after_scan _ _ _ _ _ ?dfp (Ok r) ?s] =>
        rewrite (after_scan_tempdir w url (fingerprint D) tempDir (fs st) parent d m0
                   HtempDir Hresolve Hparent Hfree dfp _ r s Hholds1)
      end.
      2:{ left. split; [done|]. eauto. }
      eexists _, _. cbn [complete]. split; [done|]. state_simpl.
      rewrite Hc, Ht, <- !app_assoc. split_and!; done.
    + eexists _, _. unfold after_scan, throw. cbn [complete]. split; [done|].
      state_simpl. rewrite Hc, Ht, <- !app_assoc. split_and!; done.
Qed.

(** ** One call after another: what becomes of the cache *)

Lemma generate_resolved w D opts st st' v :
  generate w D opts st = (st', Resolved v) ->
  exists r, v = VResult r /\ resultCache st' !! fingerprint D = Some r
    /\ ((resultCache st !! fingerprint D = Some r /\ resultCache st' = resultCache st)
        \/ (resultCache st !! fingerprint D = None
            /\ resultSecret r = Some (fingerprint D)
            /\ resultCache st' = <[fingerprint D := r]> (resultCache st))).
Proof.
  unfold generate, generateReport, throw. intros H.
  destruct (baseUrl opts) as [b|], (tempDirectory opts) as [td|], (script opts) as [sc|];
    try (simpl in H; simplify_eq).
  destruct (own_property _ D) as [[url| | | | |]|]; try (simpl in H; simplify_eq).
  rewrite get_fingerprint in H.
  destruct (resultCache st !! fingerprint D) as [r|] eqn:Hget.
  { simpl in H. simplify_eq. simpl. eauto 10. }
  destruct (mkdtempSync _ _ _) as [st1 [tempDir|e]] eqn:Hmk.
  2:{ simpl in H. simplify_eq. }
  apply mkdtempSync_frame in Hmk as (Hc1 & _ & _).
  simpl in H.
  destruct (after_fetch _ _ _ _ _ _ _ _ _) as [st2 t2] eqn:Hfetch.
  apply after_fetch_inv in Hfetch
    as (Hc2 & [(err & _ & -> & _)|[(code & ->)|[->|(dfp & ->)]]]); simpl in *;
    try by simplify_eq.
  destruct (after_scan _ _ _ _ _ _ _ _) as [st3 t3] eqn:Hscan.
  apply after_scan_inv in Hscan
    as (o' & -> & [(e & _ & -> & ->)|(r & _ & Hc3 & _ & [->|(code & ->)])]);
    simpl in H; simplify_eq.
  eexists. split; [done|]. rewrite Hc3, Hc2, Hc1.
  rewrite lookup_insert_eq. split; [done|]. right. done.
Qed.

Lemma with_fs_same st : with_fs (fs st) st = st.
Proof. by destruct st. Qed.

(** With a file system nothing else writes to, [generate_on] is
    [generate]. *)
Lemma generate_on_undisturbed w D opts st :
  generate_on w (fun root => root) (fun root => root) D opts st = generate w D opts st.
Proof.
  unfold generate_on, generate, generateReport, throw.
  destruct (baseUrl opts), (tempDirectory opts), (script opts); try done.
  destruct (own_property _ D) as [[url| | | | |]|]; try done.
  destruct (get _ _); try done.
  destruct (mkdtempSync _ _ _) as [st1 [tempDir|e]]; [|done].
  cbn [complete_on complete]. rewrite with_fs_same.
  destruct (after_fetch _ _ _ _ _ _ _ _ _) as [st2 t2] eqn:Hfetch.
  apply after_fetch_inv in Hfetch
    as (_ & [(err & _ & -> & _)|[(code & ->)|[->|(dfp & ->)]]]); try done.
  cbn [complete_on complete]. rewrite with_fs_same.
  destruct (after_scan _ _ _ _ _ _ _ _) as [st3 t3] eqn:Hscan.
  by apply after_scan_inv in Hscan as (o & -> & _).
Qed.




(** X2: the cache starts out stamped, [clearReportCache] and every call
    of [generateReport] made while no other is in flight keep it so, and
    on a stamped cache the verdict a call returns, fresh or cached,
    carries the fingerprint of the call's descriptor as its
    [resultSecret]. *)
Theorem generate_keeps_cache_stamped w D opts st st' o :
  cache_stamped (resultCache st) ->
  generate w D opts st = (st', o) ->
  cache_stamped (resultCache st')
  /\ cache_stamped (resultCache (clearReportCache st'))
  /\ (forall v, o = Resolved v ->
      exists r, v = VResult r /\ resultSecret r = Some (fingerprint D)).
Proof.
  intros Hst H. destruct o as [v|e].
  - destruct (generate_resolved _ _ _ _ _ _ H)
      as (r & -> & _ & [[Hhit ->]|(Hnone & Hr & ->)]).
    + split_and!; [done|by intros k r'|].
      intros v Hv. simplify_eq. eauto.
    + split_and!; [|by intros k r'|].
      * intros k r'. destruct (decide (k = fingerprint D)) as [->|Hk].
        -- rewrite lookup_insert_eq. by intros [= <-].
        -- rewrite lookup_insert_ne by done. apply Hst.
      * intros v Hv. simplify_eq. eauto.
  - rewrite (generate_rejected_keeps_cache _ _ _ _ _ _ H).
    split_and!; [done|by intros k r'|done].
Qed.

Lemma generate_keeps_cache_stamped_witness :
  let first := generate world_ok plain_file opts_ok fresh in
  cache_stamped (resultCache first.1)
  /\ exists r, first.2 = Resolved (VResult r)
       /\ resultSecret r = Some (fingerprint plain_file).
Proof.
  intros first.
  assert (cache_stamped (resultCache fresh)) as Hfresh by (by intros k r).
  destruct (generate_keeps_cache_stamped world_ok plain_file opts_ok fresh first.1 first.2
              Hfresh (surjective_pairing first)) as (Hstamped & _ & Hverdict).
  split; [exact Hstamped|].
  assert (first.2 = Resolved (verdict_of first.2)) as Hresolved by (vm_compute; reflexivity).
  destruct (Hverdict _ Hresolved) as (r & Hr & Hsecret).
  exists r. split; [|exact Hsecret]. exact (eq_trans Hresolved (f_equal Resolved Hr)).
Defined.

(** ** What the scanner is given, and what is left when it fails *)

(** X3: the scanner is started once, on the command [script], a space
    and the path of a file in the directory [mkdtempSync] made.  When it
    is started, the file at that path holds the plaintext [decrypt] made
    of the download if the descriptor has a [key], and the download
    itself if it has none; the download is in [unsafeEncryptedFile]
    either way.  What the scanner answers decides the call: its verdict is
    returned with the fingerprint as [resultSecret], its error is thrown
    as it is. *)
Theorem generateReport_scans_the_plaintext w D b td sc url st st1 tempDir bytes content :
  own_property (str "url") D = Some (JString url) ->
  resultCache st !! fingerprint D = None ->
  mkdtempSync w (td ++ path_sep ++ str "av-") st = (st1, Ok tempDir) ->
  rp w (httpUrl_of b url) = Ok bytes ->
  (if truthy (own_property (str "key") D) then decrypt w bytes D else Ok bytes) = Ok content ->
  let called := generate w D {| baseUrl := Some b; tempDirectory := Some td;
                                script := Some sc |} st in
  exists root,
    FS.readFile (FS.resolve (cwd w) (scanned_path tempDir D)) root = Ok content
    /\ FS.readFile (FS.resolve (cwd w) (path_join tempDir (str "unsafeEncryptedFile"))) root
       = Ok bytes
    /\ called.2
       = match executeCommand w (sc ++ str " " ++ scanned_path tempDir D) root with
         | Ok r => Resolved (VResult (set_resultSecret r (fingerprint D)))
         | Err err => Rejected err
         end
    /\ filter (fun e => is_scan e = true) (trace called.1)
       = filter (fun e => is_scan e = true) (trace st)
           ++ [ExecuteCommand (sc ++ str " " ++ scanned_path tempDir D)].
Proof.
  intros Hurl Hmiss Hmk Hrp Hcontent called.
  destruct (generate_miss_scan w D b td sc url st st1 tempDir bytes content
              Hurl Hmiss Hmk Hrp Hcontent)
    as (root & st' & o & Hgen & Hread & Hread' & _ & Hcases).
  cbv zeta in Hgen. subst called. rewrite Hgen. cbn [fst snd].
  exists root. split_and!; [done..| |].
  - by destruct (executeCommand w _ root); destruct Hcases as (-> & _).
  - assert (filter (fun e => is_scan e = true) (events_before_verdict b sc url tempDir D)
            = [ExecuteCommand (sc ++ str " " ++ scanned_path tempDir D)]) as Hscans.
    { unfold events_before_verdict. by destruct (truthy _). }
    destruct (executeCommand w _ root); destruct Hcases as (_ & _ & _ & ->);
      rewrite !filter_app, Hscans; [|done].
    rewrite filter_cons_False by (cbn [is_scan]; discriminate).
    by rewrite filter_nil, app_nil_r.
Qed.

Lemma generateReport_scans_the_plaintext_witness :
  let called := generate world_ok plain_file opts_ok fresh in
  exists root,
    FS.readFile [str "tmp"; str "av-aaaaaa"; str "unsafeEncryptedFile"] root
    = Ok [37; 80; 68; 70]
    /\ called.2
       = Resolved (VResult (set_resultSecret verdict_clean (fingerprint plain_file))).
Proof.
  intros called.
  pose (made := mkdtempSync world_ok (str "/tmp" ++ path_sep ++ str "av-") fresh).
  assert (made = (made.1, Ok (str "/tmp/av-aaaaaa"))) as Hmk by (vm_compute; reflexivity).
  destruct (generateReport_scans_the_plaintext
              world_ok plain_file (str "https://matrix.example.org") (str "/tmp")
              (str "./scan.sh") (str "mxc://example.org/abc") fresh made.1
              (str "/tmp/av-aaaaaa") [37; 80; 68; 70] [37; 80; 68; 70]
              eq_refl eq_refl Hmk eq_refl eq_refl)
    as (root & Hread & _ & Hcalled & _).
  exists root. split; [exact Hread|exact Hcalled].
Defined.

(** X4: when the scanner fails, the call fails with the scanner's error,
    not with a [ClientError]; nothing is written to the cache and no
    result line to the console, and the directory [mkdtempSync] made is
    left behind with the download, and the plaintext if there is one, in
    it. *)
Theorem generateReport_scanner_failure w D b td sc url st st1 tempDir bytes content err :
  own_property (str "url") D = Some (JString url) ->
  resultCache st !! fingerprint D = None ->
  mkdtempSync w (td ++ path_sep ++ str "av-") st = (st1, Ok tempDir) ->
  rp w (httpUrl_of b url) = Ok bytes ->
  (if truthy (own_property (str "key") D) then decrypt w bytes D else Ok bytes) = Ok content ->
  (forall root, executeCommand w (sc ++ str " " ++ scanned_path tempDir D) root = Err err) ->
  exists st',
    generate w D {| baseUrl := Some b; tempDirectory := Some td; script := Some sc |} st
    = (st', Rejected err)
    /\ resultCache st' = resultCache st
    /\ trace st' = trace st ++ events_before_verdict b sc url tempDir D
    /\ FS.readFile (FS.resolve (cwd w) (path_join tempDir (str "unsafeEncryptedFile")))
                   (fs st') = Ok bytes
    /\ FS.readFile (FS.resolve (cwd w) (scanned_path tempDir D)) (fs st') = Ok content
    /\ FS.lookup (FS.resolve (cwd w) tempDir) (fs st) = None.
Proof.
  intros Hurl Hmiss Hmk Hrp Hcontent Hfails.
  destruct (generate_miss_scan w D b td sc url st st1 tempDir bytes content
              Hurl Hmiss Hmk Hrp Hcontent)
    as (root & st' & o & Hgen & Hread & Hread' & _ & Hcases).
  cbv zeta in Hgen. rewrite Hfails in Hcases. destruct Hcases as (-> & Hc & Hfs & Ht).
  exists st'. rewrite Hfs. split_and!; [done..|].
  destruct (mkdtempSync_Ok _ _ _ _ _ Hmk) as (_ & Hmkdir & _).
  destruct (mkdir_Ok _ _ _ Hmkdir) as (parent & d & m0 & Hresolve & Hparent).
  rewrite Hresolve in *.
  destruct (mkdir_tempdir _ _ _ _ Hparent _ Hmkdir) as [Hfree _].
  by rewrite lookup_snoc, Hparent.
Qed.

Lemma generateReport_scanner_failure_witness :
  exists st',
    generate world_scan_fails encrypted_file opts_ok fresh
    = (st', Rejected (CommandError (str "spawn ./scan.sh ENOENT")))
    /\ resultCache st' = ∅
    /\ FS.readFile [str "tmp"; str "av-aaaaaa"; str "unsafeFile"] (fs st')
       = Ok [37; 80; 68; 70].
Proof.
  pose (made := mkdtempSync world_scan_fails (str "/tmp" ++ path_sep ++ str "av-") fresh).
  assert (made = (made.1, Ok (str "/tmp/av-aaaaaa"))) as Hmk by (vm_compute; reflexivity).
  destruct (generateReport_scanner_failure
              world_scan_fails encrypted_file (str "https://matrix.example.org")
              (str "/tmp") (str "./scan.sh") (str "mxc://example.org/xyz") fresh made.1
              (str "/tmp/av-aaaaaa") [37; 80; 68; 70] [37; 80; 68; 70]
              (CommandError (str "spawn ./scan.sh ENOENT"))
              eq_refl eq_refl Hmk eq_refl eq_refl (fun _ => eq_refl))
    as (st' & Hgen & Hcache & _ & _ & Hread & _).
  exists st'. split; [exact Hgen|]. split; [exact Hcache|exact Hread].
Defined.

(** X5: a call that misses the cache and returns a verdict has asked
    the media server once, the decryptor once if the descriptor has a
    [key] and not at all if it has none, and the scanner once, in this
    order, and has written one line to the console before each and one
    with the result at the end.  It leaves the file system as it found
    it, the downloaded bytes in the global [data], and the verdict in the
    cache. *)
Theorem generateReport_success_trace w D b td sc url st st1 tempDir st' v :
  own_property (str "url") D = Some (JString url) ->
  resultCache st !! fingerprint D = None ->
  mkdtempSync w (td ++ path_sep ++ str "av-") st = (st1, Ok tempDir) ->
  generate w D {| baseUrl := Some b; tempDirectory := Some td; script := Some sc |} st
  = (st', Resolved v) ->
  exists bytes r,
    rp w (httpUrl_of b url) = Ok bytes
    /\ v = VResult (set_resultSecret r (fingerprint D))
    /\ trace st'
       = trace st ++ events_before_verdict b sc url tempDir D
           ++ [ConsoleInfo (str "Result: url = " ++ [34] ++ url ++ [34]
                              ++ str ", clean = " ++ string_of_bool (clean r)
                              ++ str ", exit code = " ++ string_of_Z (exitCode r))]
    /\ fs st' = fs st
    /\ data st' = Some bytes
    /\ resultCache st' = <[fingerprint D := set_resultSecret r (fingerprint D)]> (resultCache st).
Proof.
  intros Hurl Hmiss Hmk H.
  destruct (generate_miss_outcome w D b td sc url st st1 tempDir Hurl Hmiss Hmk)
    as (st'' & o & Hgen & Hcases).
  destruct (rp w _) as [bytes|] eqn:Hrp.
  2:{ rewrite Hgen in H. destruct Hcases as (-> & _). simplify_eq. }
  destruct (if truthy _ then _ else _) as [content|] eqn:Hcontent.
  2:{ rewrite Hgen in H. destruct Hcases as (-> & _). simplify_eq. }
  clear Hgen Hcases.
  destruct (generate_miss_scan w D b td sc url st st1 tempDir bytes content
              Hurl Hmiss Hmk Hrp Hcontent)
    as (root & st2 & o2 & Hgen & _ & _ & Hdata & Hcases).
  cbv zeta in Hgen. rewrite Hgen in H.
  destruct (executeCommand w _ root) as [r|err].
  - destruct Hcases as (-> & Hc & Hfs & Ht). simplify_eq. exists bytes, r. done.
  - destruct Hcases as (-> & _). simplify_eq.
Qed.

Lemma generateReport_success_trace_witness :
  let called := generate world_ok encrypted_file opts_ok fresh in
  fs called.1 = fs fresh
  /\ data called.1 = Some [37; 80; 68; 70]
  /\ filter (fun e => is_collaborator_call e = true) (trace called.1)
     = [HttpGet (str "https://matrix.example.org/_matrix/media/v1/download/example.org/xyz");
        DecryptFile (str "/tmp/av-aaaaaa/unsafeEncryptedFile") (str "/tmp/av-aaaaaa/unsafeFile");
        ExecuteCommand (str "./scan.sh /tmp/av-aaaaaa/unsafeFile")].
Proof.
  intros called.
  pose (made := mkdtempSync world_ok (str "/tmp" ++ path_sep ++ str "av-") fresh).
  assert (made = (made.1, Ok (str "/tmp/av-aaaaaa"))) as Hmk by (vm_compute; reflexivity).
  assert (called = (called.1, Resolved (verdict_of called.2))) as Hcalled
      by (vm_compute; reflexivity).
  destruct (generateReport_success_trace
              world_ok encrypted_file (str "https://matrix.example.org") (str "/tmp")
              (str "./scan.sh") (str "mxc://example.org/xyz") fresh made.1
              (str "/tmp/av-aaaaaa") called.1 (verdict_of called.2)
              eq_refl eq_refl Hmk Hcalled)
    as (bytes & r & Hrp & _ & Htrace & Hfs & Hdata & _).
  split; [exact Hfs|]. split.
  - rewrite Hdata. f_equal. injection Hrp as <-. reflexivity.
  - rewrite Htrace. vm_compute. reflexivity.
Defined.

(** ** What a failed download or decryption leaves behind *)

(** X6: when the download fails, whatever the error, the call throws a
    [ClientError] with status 502 and a fixed message; the error of [rp]
    goes to [console.error] and nowhere else.  Nothing is written to
    [data] or to the cache, no file is written, neither the decryptor nor
    the scanner is asked, and the empty directory [mkdtempSync] made,
    which was not there before the call, is left behind. *)
Theorem generateReport_fetch_failure w D b td sc url st st1 tempDir err :
  own_property (str "url") D = Some (JString url) ->
  resultCache st !! fingerprint D = None ->
  mkdtempSync w (td ++ path_sep ++ str "av-") st = (st1, Ok tempDir) ->
  rp w (httpUrl_of b url) = Err err ->
  exists st',
    generate w D {| baseUrl := Some b; tempDirectory := Some td; script := Some sc |} st
    = (st', Rejected (ClientError 502 (str "Failed to get requested URL")))
    /\ trace st'
       = trace st
           ++ [ConsoleInfo (str "Downloading " ++ httpUrl_of b url ++ str ", writing to "
                              ++ path_join tempDir (str "unsafeEncryptedFile"));
               HttpGet (httpUrl_of b url);
               ConsoleError err]
    /\ data st' = data st
    /\ resultCache st' = resultCache st
    /\ FS.lookup (FS.resolve (cwd w) tempDir) (fs st) = None
    /\ FS.lookup (FS.resolve (cwd w) tempDir) (fs st') = Some (Dir ∅).
Proof.
  intros Hurl Hmiss Hmk Hrp.
  destruct (mkdtempSync_Ok _ _ _ _ _ Hmk) as (HtempDir & Hmkdir & Hc & Hd & Ht).
  destruct (mkdir_Ok _ _ _ Hmkdir) as (parent & d & m0 & Hresolve & Hparent).
  rewrite Hresolve in *.
  destruct (mkdir_tempdir _ _ _ _ Hparent _ Hmkdir) as [Hfree Hholds].
  unfold generate, generateReport. cbn [baseUrl tempDirectory script].
  rewrite Hurl, get_fingerprint, Hmiss, Hmk. cbn [complete]. rewrite Hrp.
  eexists. split; [done|]. state_simpl.
  rewrite lookup_snoc, Hparent, Hfree, Ht, Hd, Hc, <- !app_assoc.
  split_and!; [done..|].
  by apply (tempdir_lookup (fs st) parent d m0).
Qed.

Lemma generateReport_fetch_failure_witness :
  let failed := generate world_fetch_fails plain_file opts_ok fresh in
  failed.2 = Rejected (ClientError 502 (str "Failed to get requested URL"))
  /\ last (trace failed.1) = Some (ConsoleError (RequestError (str "ECONNREFUSED")))
  /\ FS.lookup [str "tmp"; str "av-aaaaaa"] (fs failed.1) = Some (Dir ∅).
Proof.
  intros failed.
  pose (made := mkdtempSync world_fetch_fails (str "/tmp" ++ path_sep ++ str "av-") fresh).
  assert (made = (made.1, Ok (str "/tmp/av-aaaaaa"))) as Hmk by (vm_compute; reflexivity).
  destruct (generateReport_fetch_failure
              world_fetch_fails plain_file (str "https://matrix.example.org") (str "/tmp")
              (str "./scan.sh") (str "mxc://example.org/abc") fresh made.1
              (str "/tmp/av-aaaaaa") (RequestError (str "ECONNREFUSED"))
              eq_refl eq_refl Hmk eq_refl)
    as (st' & Hgen & Htrace & _ & _ & _ & Hdir).
  subst failed. unfold opts_ok. rewrite Hgen. cbn [fst snd].
  split; [reflexivity|]. split; [|exact Hdir].
  rewrite Htrace. reflexivity.
Defined.

(** X7: when the descriptor has a [key] and the decryptor fails,
    whatever the error, the call throws a [ClientError] with status 400
    and a fixed message; the decryptor's error goes to [console.error].
    The scanner is not started and nothing is written to the cache; the
    download stays in [data] and in [unsafeEncryptedFile], in the
    directory [mkdtempSync] made, and there is no [unsafeFile]. *)
Theorem generateReport_decrypt_failure w D b td sc url st st1 tempDir bytes err :
  own_property (str "url") D = Some (JString url) ->
  resultCache st !! fingerprint D = None ->
  mkdtempSync w (td ++ path_sep ++ str "av-") st = (st1, Ok tempDir) ->
  rp w (httpUrl_of b url) = Ok bytes ->
  truthy (own_property (str "key") D) = true ->
  decrypt w bytes D = Err err ->
  let filePath := path_join tempDir (str "unsafeEncryptedFile") in
  let decryptedFilePath := path_join tempDir (str "unsafeFile") in
  exists st',
    generate w D {| baseUrl := Some b; tempDirectory := Some td; script := Some sc |} st
    = (st', Rejected (ClientError 400 (str "Failed to decrypt file")))
    /\ trace st'
       = trace st
           ++ [ConsoleInfo (str "Downloading " ++ httpUrl_of b url ++ str ", writing to "
                              ++ filePath);
               HttpGet (httpUrl_of b url);
               ConsoleInfo (str "Decrypting " ++ filePath ++ str ", writing to "
                              ++ decryptedFilePath);
               DecryptFile filePath decryptedFilePath;
               ConsoleError err]
    /\ data st' = Some bytes
    /\ resultCache st' = resultCache st
    /\ FS.lookup (FS.resolve (cwd w) tempDir) (fs st) = None
    /\ FS.lookup (FS.resolve (cwd w) filePath) (fs st') = Some (File bytes)
    /\ FS.lookup (FS.resolve (cwd w) decryptedFilePath) (fs st') = None.
Proof.
  intros Hurl Hmiss Hmk Hrp Hkey Hdecrypt filePath decryptedFilePath.
  destruct (mkdtempSync_Ok _ _ _ _ _ Hmk) as (HtempDir & Hmkdir & Hc & Hd & Ht).
  destruct (mkdir_Ok _ _ _ Hmkdir) as (parent & d & m0 & Hresolve & Hparent).
  rewrite Hresolve in Hmkdir.
  destruct (mkdir_tempdir _ _ _ _ Hparent _ Hmkdir) as [Hfree Hholds].
  destruct (filePath_resolve (cwd w) tempDir _ HtempDir Hresolve) as (E1 & E2 & Hne).
  unfold generate, generateReport, filePath, decryptedFilePath.
  cbn [baseUrl tempDirectory script].
  rewrite Hurl, get_fingerprint, Hmiss, Hmk. cbn [complete].
  match goal with
  | |- context [after_fetch _ _ _ _ _ _ _ _ ?s] => change (fs st1) with (fs s) in Hholds
  end.
  rewrite Hrp.
  destruct (after_fetch_tempdir w D sc url (fingerprint D) tempDir (fs st) parent d m0
              HtempDir Hresolve Hparent bytes _ Hholds) as (root1 & Hholds1 & Hfetch).
  cbv zeta in Hfetch. rewrite Hkey, Hdecrypt in Hfetch. rewrite Hfetch.
  eexists. split; [done|]. state_simpl.
  rewrite Hresolve, E1, E2, (lookup_snoc parent d (fs st)), Hparent, Hfree.
  rewrite !(lookup_snoc (parent ++ [d]) _ root1).
  rewrite (tempdir_lookup (fs st) parent d m0 _ _ Hholds1).
  rewrite Ht, Hc, <- !app_assoc.
  split_and!; done.
Qed.

Lemma generateReport_decrypt_failure_witness :
  let failed := generate world_decrypt_fails encrypted_file opts_ok fresh in
  failed.2 = Rejected (ClientError 400 (str "Failed to decrypt file"))
  /\ last (trace failed.1)
     = Some (ConsoleError (DecryptError (str "Unexpected sha256 hash")))
  /\ FS.lookup [str "tmp"; str "av-aaaaaa"; str "unsafeEncryptedFile"] (fs failed.1)
     = Some (File [37; 80; 68; 70]).
Proof.
  intros failed.
  pose (made := mkdtempSync world_decrypt_fails (str "/tmp" ++ path_sep ++ str "av-") fresh).
  assert (made = (made.1, Ok (str "/tmp/av-aaaaaa"))) as Hmk by (vm_compute; reflexivity).
  destruct (generateReport_decrypt_failure
              world_decrypt_fails encrypted_file (str "https://matrix.example.org")
              (str "/tmp") (str "./scan.sh") (str "mxc://example.org/xyz") fresh made.1
              (str "/tmp/av-aaaaaa") [37; 80; 68; 70]
              (DecryptError (str "Unexpected sha256 hash"))
              eq_refl eq_refl Hmk eq_refl eq_refl eq_refl)
    as (st' & Hgen & Htrace & _ & _ & _ & Hfile & _).
  subst failed. unfold opts_ok. rewrite Hgen. cbn [fst snd].
  split; [reflexivity|]. split; [|exact Hfile].
  rewrite Htrace. reflexivity.
Defined.

(** ** Without a directory for temporary files *)

Lemma resolve_app_segment cwd (dir name : list N) :
  dir <> [] -> plain_segment name -> 47 ∉ name ->
  FS.resolve cwd (dir ++ path_sep ++ name) = FS.resolve cwd dir ++ [name].
Proof.
  intros Hdir Hplain Hsep. destruct dir as [|c dir']; [done|].
  change ((c :: dir') ++ path_sep ++ name) with (c :: (dir' ++ 47 :: name)).
  rewrite !resolve_cons. change (c :: dir' ++ 47 :: name) with ((c :: dir') ++ 47 :: name).
  rewrite split_on_app, (split_on_plain 47 name Hsep), fold_left_app.
  cbn [fold_left]. by rewrite push_segment_plain.
Qed.

Lemma tmp_suffix_no_sep n v : 47 ∉ tmp_suffix n v.
Proof.
  revert v. induction n as [|n IH]; intros v; cbn [tmp_suffix]; [apply not_elem_of_nil|].
  apply not_elem_of_cons. split; [|apply IH].
  assert (Forall (fun c => 47 <> c) tmp_letters) as Hletters
      by (vm_compute; repeat constructor; discriminate).
  destruct (nth_in_or_default (N.to_nat (v mod 62)) tmp_letters 97) as [Hin| ->]; [|done].
  rewrite List.Forall_forall in Hletters. by apply Hletters.
Qed.

Lemma in_dir_missing p f root :
  FS.lookup p root = None -> FS.in_dir p f root = Err ENOENT \/ FS.in_dir p f root = Err ENOTDIR.
Proof.
  revert root. induction p as [|s p IH]; intros [content|m]; cbn; try done; try by right.
  destruct (m !! s) as [c|]; [|by left]. intros H.
  destruct (IH c H) as [-> | ->]; [by left|by right].
Qed.

Lemma mkdtempSync_missing w (td : list N) st :
  td <> [] ->
  FS.lookup (FS.resolve (cwd w) td) (fs st) = None ->
  exists code,
    mkdtempSync w (td ++ path_sep ++ str "av-") st
    = (with_draws (S (draws st)) st, Err (SystemError code))
    /\ (code = ENOENT \/ code = ENOTDIR).
Proof.
  intros Htd Hmissing. unfold mkdtempSync.
  assert (TMP_ATTEMPTS <> 0%nat) as Hattempts by (unfold TMP_ATTEMPTS; lia).
  destruct TMP_ATTEMPTS as [|n]; [done|]. cbn [mkdtemp_loop]. state_simpl.
  rewrite <- !app_assoc, resolve_app_segment; [|done| |].
  - unfold FS.mkdir. rewrite at_entry_snoc.
    destruct (in_dir_missing _ (fun m => match m !! (str "av-" ++ tmp_suffix 6 (random w (draws st))) with
                                         | Some _ => Err EEXIST
                                         | None => Ok (<[str "av-" ++ tmp_suffix 6 (random w (draws st)) := Dir ∅]> m)
                                         end) _ Hmissing) as [E|E];
      rewrite E; eauto.
  - by split_and!.
  - intros Hin. apply elem_of_app in Hin as [Hin|Hin]; [|by apply tmp_suffix_no_sep in Hin].
    revert Hin. vm_compute. intros Hin. repeat (apply elem_of_cons in Hin as [Hin|Hin]; [done|]).
    by apply elem_of_nil in Hin.
Qed.

(** X8: when the directory [opts.tempDirectory] names does not exist,
    a call that misses the cache fails with the error of [mkdtempSync]
    ([ENOENT], or [ENOTDIR] if a file is in the way), not with a
    [ClientError].  It fails before the first line is written to the
    console and before the media server is asked: the call leaves the
    cache, the file system and the console as they were. *)
Theorem generateReport_without_temporary_directory w D b td sc url st :
  own_property (str "url") D = Some (JString url) ->
  resultCache st !! fingerprint D = None ->
  td <> [] ->
  FS.lookup (FS.resolve (cwd w) td) (fs st) = None ->
  exists st' code,
    generateReport w D {| baseUrl := Some b; tempDirectory := Some td; script := Some sc |} st
    = (st', Settled (Rejected (SystemError code)))
    /\ (code = ENOENT \/ code = ENOTDIR)
    /\ trace st' = trace st /\ fs st' = fs st /\ resultCache st' = resultCache st
    /\ data st' = data st.
Proof.
  intros Hurl Hmiss Htd Hmissing.
  destruct (mkdtempSync_missing w td st Htd Hmissing) as (code & Hmk & Hcode).
  unfold generateReport, throw. cbn [baseUrl tempDirectory script].
  rewrite Hurl, get_fingerprint, Hmiss, Hmk.
  eexists _, code. split; [done|]. done.
Qed.

Lemma generateReport_without_temporary_directory_witness :
  let nowhere := with_fs (Dir ∅) fresh in
  exists st',
    generateReport world_ok plain_file opts_ok nowhere
    = (st', Settled (Rejected (SystemError ENOENT)))
    /\ trace st' = [].
Proof.
  intros nowhere.
  destruct (generateReport_without_temporary_directory
              world_ok plain_file (str "https://matrix.example.org") (str "/tmp")
              (str "./scan.sh") (str "mxc://example.org/abc") nowhere
              eq_refl eq_refl ltac:(discriminate) eq_refl)
    as (st' & code & Hgen & Hcode & Htrace & _).
  exists st'. split; [|exact Htrace].
  assert (code = ENOENT) as <-; [|exact Hgen].
  assert (generateReport world_ok plain_file opts_ok nowhere
          = ((generateReport world_ok plain_file opts_ok nowhere).1,
             Settled (Rejected (SystemError ENOENT)))) as Hrun by (vm_compute; reflexivity).
  unfold opts_ok in Hrun. rewrite Hgen in Hrun. by injection Hrun.
Defined.

(** ** The two routes *)

(** X9: on a stamped cache, whenever [scanHandler] answers a request,
    the [secret] of the answer is the fingerprint of the descriptor sent,
    44 code units long, and [clean] and [info] are not [undefined].  A
    request to [/scan_report] with that secret, made next, is answered
    with [scanned = true] and the same [clean] and [info]. *)
Theorem post_scan_then_scan_report w D opts st st' body :
  cache_stamped (resultCache st) ->
  post_scan w D opts st = (st', Ok body) ->
  response_secret body = Some (fingerprint D)
  /\ length (fingerprint D) = 44%nat
  /\ (exists c i, response_clean body = Some c /\ response_info body = Some i)
  /\ (scanReportHandler (fingerprint D) st').2
     = {| report_clean := response_clean body; report_scanned := true;
          report_info := response_info body |}.
Proof.
  intros Hst. unfold post_scan.
  destruct (generate w D opts st) as [st1 [v|e]] eqn:Hgen; [|done].
  destruct (generate_resolved _ _ _ _ _ _ Hgen) as (r & -> & Hr & Hcases).
  cbn [scanHandler]. intros [= -> <-]. cbn [response_secret response_clean response_info].
  split_and!.
  - destruct Hcases as [[Hhit _]|(_ & Hsecret & _)]; [by apply Hst|done].
  - apply fingerprint_length.
  - eauto.
  - unfold scanReportHandler. cbn [snd]. unfold getReport.
    by rewrite get_fingerprint, Hr.
Qed.

Lemma post_scan_then_scan_report_witness :
  let answered := post_scan world_ok encrypted_file opts_ok fresh in
  exists body,
    answered.2 = Ok body
    /\ response_secret body = Some (fingerprint encrypted_file)
    /\ (scanReportHandler (fingerprint encrypted_file) answered.1).2
       = {| report_clean := Some true; report_scanned := true;
            report_info := Some (str "File is clean") |}.
Proof.
  intros answered.
  pose (body := {| response_clean := Some true; response_info := Some (str "File is clean");
                   response_secret := Some (fingerprint encrypted_file) |}).
  assert (answered = (answered.1, Ok body)) as Hanswered by (vm_compute; reflexivity).
  assert (cache_stamped (resultCache fresh)) as Hfresh by (by intros k r).
  destruct (post_scan_then_scan_report world_ok encrypted_file opts_ok fresh answered.1 body
              Hfresh Hanswered) as (Hsecret & _ & _ & Hreport).
  exists body. split; [by rewrite Hanswered|]. split; [exact Hsecret|exact Hreport].
Defined.

(** X10: [clearReportCache] empties the cache and touches nothing else.
    After it no fingerprint is recognised by [getReport], and a call of
    [generateReport], for any descriptor, is not answered from the cache:
    it does not settle with a verdict before its first [await]. *)
Theorem clearReportCache_forgets_every_verdict w D opts st :
  getReport (clearReportCache st) (fingerprint D)
  = {| report_clean := Some false; report_scanned := false;
       report_info := Some (str "Secret not recognised, file not scanned.") |}
  /\ (forall v, (generateReport w D opts (clearReportCache st)).2 <> Settled (Resolved v))
  /\ fs (clearReportCache st) = fs st
  /\ data (clearReportCache st) = data st
  /\ trace (clearReportCache st) = trace st.
Proof.
  split_and!; [|intros v|done..].
  - by apply getReport_unknown; [apply lookup_empty|apply fingerprint_not_inherited].
  - unfold generateReport, throw.
    destruct (baseUrl opts), (tempDirectory opts), (script opts); try done.
    destruct (own_property _ D) as [[url| | | | |]|]; try done.
    rewrite get_fingerprint. unfold clearReportCache. state_simpl. rewrite lookup_empty.
    by destruct (mkdtempSync _ _ _) as [st1 [tempDir|e]].
Qed.

(** ** A descriptor without a key *)

Lemma mkdtemp_loop_with_decrypt d w attempts prefix st :
  mkdtemp_loop (with_decrypt d w) attempts prefix st = mkdtemp_loop w attempts prefix st.
Proof.
  revert st. induction attempts as [|n IH]; intros st; [done|].
  cbn [mkdtemp_loop]. rewrite IH. done.
Qed.

(** X11: when the descriptor has no [key], or an empty string or
    [false] for one, the decryptor has no part in the call: with any
    other decryptor in its place the call ends in the same state with
    the same result. *)
Theorem generateReport_without_key_ignores_decrypt d w D opts st :
  truthy (own_property (str "key") D) = false ->
  generate (with_decrypt d w) D opts st = generate w D opts st.
Proof.
  intros Hkey. unfold generate, generateReport, throw.
  destruct (baseUrl opts), (tempDirectory opts), (script opts); try done.
  destruct (own_property (str "url") D) as [[url| | | | |]|]; try done.
  destruct (get _ _); try done.
  unfold mkdtempSync. rewrite mkdtemp_loop_with_decrypt.
  destruct (mkdtemp_loop _ _ _ _) as [st1 [tempDir|e]]; [|done].
  cbn [complete]. change (rp (with_decrypt d w)) with (rp w).
  destruct (rp w _) as [bytes|err]; [|done].
  unfold after_fetch. rewrite Hkey.
  change (writeFileSync (with_decrypt d w)) with (writeFileSync w).
  destruct (writeFileSync w _ _ _) as [st2|err]; [|done].
  unfold scan. cbn [complete].
  change (executeCommand (with_decrypt d w)) with (executeCommand w).
  change (after_scan (with_decrypt d w)) with (after_scan w).
  destruct (after_scan w _ _ _ _ _ _ _) as [st3 t3] eqn:Hscan.
  by apply after_scan_inv in Hscan as (o & -> & _).
Qed.

Lemma generateReport_without_key_ignores_decrypt_witness :
  generate world_decrypt_fails plain_file opts_ok fresh
  = generate world_ok plain_file opts_ok fresh.
Proof.
  exact (generateReport_without_key_ignores_decrypt
           (decrypt world_decrypt_fails) world_ok plain_file opts_ok fresh eq_refl).
Defined.

(** ** Calls in flight at once: what becomes of the cache *)

Lemma generateReport_call_of w D opts st st' t :
  cache_stamped (resultCache st) ->
  generateReport w D opts st = (st', t) ->
  call_of w D t /\ resultCache st' = resultCache st.
Proof.
  unfold generateReport, throw. intros Hst H.
  destruct (baseUrl opts) as [b|], (tempDirectory opts) as [td|], (script opts) as [sc|];
    try by simplify_eq.
  destruct (own_property _ D) as [[url| | | | |]|]; try by simplify_eq.
  rewrite get_fingerprint in H.
  destruct (resultCache st !! fingerprint D) as [r|] eqn:Hget.
  { simplify_eq. split; [|done]. exists r. split; [done|]. by apply Hst. }
  destruct (mkdtempSync _ _ _) as [st1 [tempDir|e]] eqn:Hmk;
    apply mkdtempSync_frame in Hmk as (Hc & _ & _); simplify_eq.
  - split; [|done]. cbn [call_of]. eauto 10.
  - done.
Qed.

Lemma resume_call_of w D w' t st st' t' :
  call_of w D t ->
  resume w' t st = (st', t') ->
  call_of w D t'
  /\ (forall k, k <> fingerprint D -> resultCache st' !! k = resultCache st !! k)
  /\ (cache_stamped (resultCache st) -> cache_stamped (resultCache st')).
Proof.
  intros Ht H. destruct t as [o|target k|cmd k]; cbn [resume] in H.
  - by simplify_eq.
  - destruct Ht as (sc & url & tempDir & filePath & ->).
    apply after_fetch_inv in H
      as (Hc & [(err & _ & -> & _)|[(code & ->)|[->|(dfp & ->)]]]);
      rewrite Hc; split_and!; try done.
    cbn [call_of]. eauto 10.
  - destruct Ht as (url & tempDir & filePath & dfp & ->).
    apply after_scan_inv in H
      as (o' & -> & [(e & _ & -> & ->)|(r & _ & Hc & _ & Ho)]); [done|].
    rewrite Hc. split_and!.
    + destruct Ho as [->|(code & ->)]; [|done]. cbn [call_of]. eauto.
    + intros k Hk. by rewrite lookup_insert_ne.
    + intros Hst k r'. destruct (decide (k = fingerprint D)) as [->|Hk].
      * rewrite lookup_insert_eq. by intros [= <-].
      * rewrite lookup_insert_ne by done. apply Hst.
Qed.

(** X12: two calls in flight at once, for any two descriptors and with
    their awaited promises settling in any order, write to the cache
    only under the fingerprints of their own descriptors, and only
    verdicts that carry the fingerprint they are filed under.  A verdict
    either call returns carries the fingerprint of that call's
    descriptor. *)
Theorem interleave_keeps_cache_stamped w D1 D2 opts1 opts2 sched st st1 a st2 b st' a' b' :
  cache_stamped (resultCache st) ->
  generateReport w D1 opts1 st = (st1, a) ->
  generateReport w D2 opts2 st1 = (st2, b) ->
  interleave w sched a b st2 = (st', a', b') ->
  cache_stamped (resultCache st')
  /\ (forall k, k <> fingerprint D1 -> k <> fingerprint D2 ->
      resultCache st' !! k = resultCache st !! k)
  /\ (forall v, a' = Settled (Resolved v) ->
      exists r, v = VResult r /\ resultSecret r = Some (fingerprint D1))
  /\ (forall v, b' = Settled (Resolved v) ->
      exists r, v = VResult r /\ resultSecret r = Some (fingerprint D2)).
Proof.
  intros Hst Ha Hb.
  destruct (generateReport_call_of _ _ _ _ _ _ Hst Ha) as [Hca Hc1].
  rewrite <- Hc1 in Hst.
  destruct (generateReport_call_of _ _ _ _ _ _ Hst Hb) as [Hcb Hc2].
  rewrite <- Hc2 in Hst. rewrite <- Hc1, <- Hc2.
  clear Ha Hb Hc1 Hc2. revert a b st2 Hst Hca Hcb.
  induction sched as [|[] sched IH]; intros a b st2 Hst Hca Hcb H; cbn [interleave] in H.
  - simplify_eq. split_and!; [done|done| |].
    + intros v ->. exact Hca.
    + intros v ->. exact Hcb.
  - destruct (resume w a st2) as [st3 a3] eqn:Hresume.
    destruct (resume_call_of _ _ _ _ _ _ _ Hca Hresume) as (Hca3 & Hframe & Hst3).
    destruct (IH a3 b st3 (Hst3 Hst) Hca3 Hcb H) as (Hst' & Hframe' & Ha' & Hb').
    split_and!; [done| |done..].
    intros k Hk1 Hk2. rewrite Hframe' by done. by apply Hframe.
  - destruct (resume w b st2) as [st3 b3] eqn:Hresume.
    destruct (resume_call_of _ _ _ _ _ _ _ Hcb Hresume) as (Hcb3 & Hframe & Hst3).
    destruct (IH a b3 st3 (Hst3 Hst) Hca Hcb3 H) as (Hst' & Hframe' & Ha' & Hb').
    split_and!; [done| |done..].
    intros k Hk1 Hk2. rewrite Hframe' by done. by apply Hframe.
Qed.

Lemma interleave_keeps_cache_stamped_witness :
  let both := generate_twice_concurrently world_ok [true; false; false; true]
                                          plain_file opts_ok fresh in
  cache_stamped (resultCache both.1.1)
  /\ forall v, both.2 = Settled (Resolved v) ->
      exists r, v = VResult r /\ resultSecret r = Some (fingerprint plain_file).
Proof.
  intros both.
  assert (cache_stamped (resultCache fresh)) as Hfresh by (by intros k r).
  pose (first := generateReport world_ok plain_file opts_ok fresh).
  pose (second := generateReport world_ok plain_file opts_ok first.1).
  assert (interleave world_ok [true; false; false; true] first.2 second.2 second.1
          = (both.1.1, both.1.2, both.2)) as Hboth.
  { unfold both, generate_twice_concurrently. fold first.
    rewrite (surjective_pairing first). cbn [fst snd]. fold second.
    rewrite (surjective_pairing second). cbn [fst snd].
    by rewrite <- !surjective_pairing. }
  destruct (interleave_keeps_cache_stamped
              world_ok plain_file plain_file opts_ok opts_ok [true; false; false; true]
              fresh first.1 first.2 second.1 second.2 both.1.1 both.1.2 both.2
              Hfresh (surjective_pairing first) (surjective_pairing second) Hboth)
    as (Hstamped & _ & _ & Hb).
  split; [exact Hstamped|exact Hb].
Defined.

(** ** The verdict is cached before the files are removed *)

Lemma unlink_missing p root :
  FS.lookup p root = None -> exists code, FS.unlink p root = Err code.
Proof.
  intros Hmissing. destruct (FS.unlink p root) as [root'|code] eqn:H; [|eauto].
  exfalso. destruct (exists_last (l := p)) as (q & name & ->); [by intros ->|].
  unfold FS.unlink in H. rewrite at_entry_snoc in H.
  destruct (in_dir_Ok _ _ _ _ H) as (m & Hm).
  rewrite (in_dir_lookup _ _ _ _ Hm) in H.
  rewrite lookup_snoc, Hm in Hmissing. by rewrite Hmissing in H.
Qed.

(** X13: the verdict is put in the cache before the temporary files
    are removed.  If the downloaded file is no longer there when the
    scanner has answered, the call fails with the error of [unlinkSync];
    the verdict is in the cache all the same, [getReport] reports it,
    and the next call for the descriptor returns it from the cache. *)
Theorem generateReport_caches_before_cleanup w D b td sc url tempDir dfp cmd verdict st :
  own_property (str "url") D = Some (JString url) ->
  executeCommand w cmd (fs st) = Ok verdict ->
  FS.lookup (FS.resolve (cwd w) (path_join tempDir (str "unsafeEncryptedFile"))) (fs st)
  = None ->
  let waiting_for_scanner :=
    AwaitExec cmd (after_scan w url (fingerprint D) tempDir
                              (path_join tempDir (str "unsafeEncryptedFile")) dfp) in
  let cached := set_resultSecret verdict (fingerprint D) in
  exists st' code,
    resume w waiting_for_scanner st = (st', Settled (Rejected (SystemError code)))
    /\ resultCache st' = <[fingerprint D := cached]> (resultCache st)
    /\ getReport st' (fingerprint D)
       = {| report_clean := Some (clean verdict); report_scanned := true;
            report_info := Some (info verdict) |}
    /\ forall w',
        (generate w' D {| baseUrl := Some b; tempDirectory := Some td; script := Some sc |}
                  st').2
        = Resolved (VResult cached).
Proof.
  intros Hurl Hexec Hmissing waiting_for_scanner cached.
  destruct (unlink_missing _ _ Hmissing) as (code & Hunlink).
  unfold waiting_for_scanner. cbn [resume]. rewrite Hexec. unfold after_scan, throw.
  unfold unlinkSync at 1, fs_call. state_simpl. rewrite Hunlink.
  eexists _, code. split; [done|]. state_simpl. split; [done|]. split.
  - unfold getReport. state_simpl. by rewrite get_fingerprint, lookup_insert_eq.
  - intros w'. unfold generate, generateReport. cbn [baseUrl tempDirectory script].
    rewrite Hurl, get_fingerprint. state_simpl. by rewrite lookup_insert_eq.
Qed.

Lemma generateReport_caches_before_cleanup_witness :
  let waiting_for_scanner :=
    AwaitExec (str "./scan.sh /tmp/av-aaaaaa/unsafeEncryptedFile")
      (after_scan world_ok (str "mxc://example.org/abc") (fingerprint plain_file)
         (str "/tmp/av-aaaaaa")
         (path_join (str "/tmp/av-aaaaaa") (str "unsafeEncryptedFile"))
         (str "/tmp/av-aaaaaa/unsafeEncryptedFile")) in
  exists st' code,
    resume world_ok waiting_for_scanner fresh = (st', Settled (Rejected (SystemError code)))
    /\ (generate world_fetch_fails plain_file opts_ok st').2
       = Resolved (VResult (set_resultSecret verdict_clean (fingerprint plain_file))).
Proof.
  intros waiting_for_scanner.
  destruct (generateReport_caches_before_cleanup
              world_ok plain_file (str "https://matrix.example.org") (str "/tmp")
              (str "./scan.sh") (str "mxc://example.org/abc") (str "/tmp/av-aaaaaa")
              (str "/tmp/av-aaaaaa/unsafeEncryptedFile")
              (str "./scan.sh /tmp/av-aaaaaa/unsafeEncryptedFile") verdict_clean fresh
              eq_refl eq_refl eq_refl)
    as (st' & code & Hresume & _ & _ & Hnext).
  exists st', code. split; [exact Hresume|exact (Hnext world_fetch_fails)].
Defined.

(** ** The secrets [base64sha256] makes *)

Lemma base64_last_32 (bs : list N) : length bs = 32%nat -> last (base64 bs) = Some pad_char.
Proof.
  intros H. do 33 (destruct bs as [|? bs]; [done|]). done.
Qed.

(** X14: whatever the string, [base64sha256] returns 44 code units, the
    last of which is the padding [=]; it never returns the name of a
    property an object inherits, so [resultCache[resultSecret]] in
    [generateReport] is [undefined] unless a verdict was stored under
    the secret, and the line of [scanReportHandler] that logs a secret
    [base64sha256] made shows 8 of its 44 code units. *)
Theorem base64sha256_shape (s : list N) :
  length (base64sha256 s) = 44%nat
  /\ last (base64sha256 s) = Some pad_char
  /\ (base64sha256 s ∉ Object_prototype_keys)
  /\ redactedSecret (base64sha256 s)
     = take 4 (base64sha256 s) ++ str "..." ++ drop 40 (base64sha256 s)
  /\ (forall cache, get cache (base64sha256 s)
                    = match cache !! base64sha256 s with
                      | Some r => VResult r
                      | None => VUndefined
                      end).
Proof.
  assert (base64sha256 s ∉ Object_prototype_keys) as Hown.
  { intros Hin.
    pose proof (proj1 (Forall_forall _ _) Object_prototype_keys_short _ Hin) as Hlen.
    cbv beta in Hlen. rewrite base64sha256_length in Hlen. lia. }
  split_and!.
  - apply base64sha256_length.
  - apply base64_last_32, sha256_length.
  - exact Hown.
  - by rewrite redactedSecret_eq, base64sha256_length.
  - intros cache. unfold get. destruct (cache !! _); [done|].
    by rewrite bool_decide_eq_false_2.
Qed.

(** ** The files that were there before the call *)

Lemma tempdir_holds_keeps_files root0 parent d m0 e root :
  FS.lookup parent root0 = Some (Dir m0) ->
  m0 !! d = None ->
  tempdir_holds root0 parent d m0 e root ->
  forall p content,
    FS.lookup p root0 = Some (File content) -> FS.lookup p root = Some (File content).
Proof.
  unfold tempdir_holds, replace_dir. intros Hparent Hfree.
  revert root0 root Hparent.
  induction parent as [|s0 parent IH]; intros root0 root Hparent Hholds p content Hp.
  - cbn in Hparent. simplify_eq. cbn in Hholds. simplify_eq.
    destruct p as [|s p]; [done|]. cbn in *.
    destruct (decide (s = d)) as [->|Hs]; [by rewrite Hfree in Hp|].
    by rewrite lookup_insert_ne.
  - destruct root0 as [|m]; [done|]. cbn in Hparent, Hholds.
    destruct (m !! s0) as [c0|] eqn:Hs0; [|done].
    destruct (FS.in_dir parent _ c0) as [c0'|] eqn:Hin; [|done].
    cbn in Hholds. simplify_eq.
    destruct p as [|s p]; [done|]. cbn in *.
    destruct (decide (s = s0)) as [->|Hs].
    + rewrite lookup_insert_eq. rewrite Hs0 in Hp. by eapply IH.
    + by rewrite lookup_insert_ne.
Qed.

Lemma generate_fs w D opts st st' o :
  generate w D opts st = (st', o) ->
  fs st' = fs st
  \/ exists parent d m0 e,
       FS.lookup parent (fs st) = Some (Dir m0) /\ m0 !! d = None
       /\ tempdir_holds (fs st) parent d m0 e (fs st').
Proof.
  intros H.
  destruct opts as [[b|] [td|] [sc|]];
    try (unfold generate, generateReport, throw in H; simpl in H; simplify_eq; by left).
  destruct (own_property (str "url") D) as [[url| | | | |]|] eqn:Hurl;
    try (unfold generate, generateReport, throw in H; cbn [baseUrl tempDirectory script] in H;
         rewrite Hurl in H; simpl in H; simplify_eq; by left).
  destruct (resultCache st !! fingerprint D) as [r|] eqn:Hmiss.
  { unfold generate, generateReport in H. cbn [baseUrl tempDirectory script] in H.
    rewrite Hurl, get_fingerprint, Hmiss in H. simpl in H. simplify_eq. by left. }
  destruct (mkdtempSync w (td ++ path_sep ++ str "av-") st) as [st1 [tempDir|err]] eqn:Hmk.
  2:{ unfold generate, generateReport, throw in H. cbn [baseUrl tempDirectory script] in H.
      rewrite Hurl, get_fingerprint, Hmiss, Hmk in H. simpl in H. simplify_eq.
      left. by apply mkdtempSync_Err in Hmk as (? & _). }
  destruct (mkdtempSync_Ok _ _ _ _ _ Hmk) as (HtempDir & Hmkdir & Hc & _ & Ht).
  destruct (mkdir_Ok _ _ _ Hmkdir) as (parent & d & m0 & Hresolve & Hparent).
  rewrite Hresolve in Hmkdir.
  destruct (mkdir_tempdir _ _ _ _ Hparent _ Hmkdir) as [Hfree Hholds].
  revert H. unfold generate, generateReport. cbn [baseUrl tempDirectory script].
  rewrite Hurl, get_fingerprint, Hmiss, Hmk. cbn [complete].
  match goal with
  | |- context [after_fetch _ _ _ _ _ _ _ _ ?s] => change (fs st1) with (fs s) in Hholds
  end.
  destruct (rp w (httpUrl_of b url)) as [bytes|err].
  2:{ cbn [after_fetch throw complete]. intros H. simplify_eq. right. state_simpl.
      eauto 10. }
  destruct (after_fetch_tempdir w D sc url (fingerprint D) tempDir (fs st) parent d m0
              HtempDir Hresolve Hparent bytes _ Hholds) as (root1 & Hholds1 & Hfetch).
  cbv zeta in Hfetch.
  destruct (truthy _).
  - destruct (decrypt w bytes D) as [plaintext|err].
    + destruct Hfetch as (root2 & Hholds2 & ->). unfold scan. cbn [complete]. state_simpl.
      destruct (executeCommand w _ root2) as [r|e] eqn:Hexec.
      * match goal with
        | |- context [after_scan _ _ _ _ _ ?dfp (Ok r) ?s] =>
          rewrite (after_scan_tempdir w url (fingerprint D) tempDir (fs st) parent d m0
                     HtempDir Hresolve Hparent Hfree dfp _ r s Hholds2)
        end.
        2:{ right. split; [done|]. eauto. }
        cbn [complete]. intros H. simplify_eq. by left.
      * unfold after_scan, throw. cbn [complete]. intros H. simplify_eq. right.
        state_simpl. eauto 10.
    + rewrite Hfetch. cbn [complete]. intros H. simplify_eq. right. state_simpl. eauto 10.
  - rewrite Hfetch. unfold scan. cbn [complete]. state_simpl.
    destruct (executeCommand w _ root1) as [r|e] eqn:Hexec.
    + match goal with
      | |- context [after_scan _ _ _ _ _ ?dfp (Ok r) ?s] =>
        rewrite (after_scan_tempdir w url (fingerprint D) tempDir (fs st) parent d m0
                   HtempDir Hresolve Hparent Hfree dfp _ r s Hholds1)
      end.
      2:{ left. split; [done|]. eauto. }
      cbn [complete]. intros H. simplify_eq. by left.
    + unfold after_scan, throw. cbn [complete]. intros H. simplify_eq. right.
      state_simpl. eauto 10.
Qed.

(** X15: whatever a call made while no other is in flight does and
    however it ends, every file that was in the file system before the
    call is there after it, with the content it had: the call writes and
    removes only in the directory it made for itself.  When the call
    returns a verdict the whole file system is as it was. *)
Theorem generateReport_keeps_files w D opts st st' o :
  generate w D opts st = (st', o) ->
  (forall p content,
      FS.lookup p (fs st) = Some (File content) -> FS.lookup p (fs st') = Some (File content))
  /\ (forall v, o = Resolved v -> fs st' = fs st).
Proof.
  intros H. split.
  - destruct (generate_fs _ _ _ _ _ _ H) as [->|(parent & d & m0 & e & Hparent & Hfree & Hholds)];
      [done|].
    by apply (tempdir_holds_keeps_files _ _ _ _ _ _ Hparent Hfree Hholds).
  - intros v ->.
    destruct opts as [[b|] [td|] [sc|]];
      try (unfold generate, generateReport, throw in H; simpl in H; by simplify_eq).
    destruct (own_property (str "url") D) as [[url| | | | |]|] eqn:Hurl;
      try (unfold generate, generateReport, throw in H;
           cbn [baseUrl tempDirectory script] in H; rewrite Hurl in H; simpl in H;
           by simplify_eq).
    destruct (resultCache st !! fingerprint D) as [r|] eqn:Hmiss.
    { unfold generate, generateReport in H. cbn [baseUrl tempDirectory script] in H.
      rewrite Hurl, get_fingerprint, Hmiss in H. simpl in H. by simplify_eq. }
    destruct (mkdtempSync w (td ++ path_sep ++ str "av-") st) as [st1 [tempDir|err]] eqn:Hmk.
    + by eapply generateReport_success_removes_temporary_files.
    + unfold generate, generateReport, throw in H. cbn [baseUrl tempDirectory script] in H.
      rewrite Hurl, get_fingerprint, Hmiss, Hmk in H. simpl in H. by simplify_eq.
Qed.

Lemma generateReport_keeps_files_witness :
  let before := with_fs (Dir {[ str "tmp" := Dir {[ str "keep" := File [1; 2; 3] ]} ]}) fresh in
  let failed := generate world_decrypt_fails encrypted_file opts_ok before in
  FS.lookup [str "tmp"; str "keep"] (fs failed.1) = Some (File [1; 2; 3]).
Proof.
  intros before failed.
  exact (proj1 (generateReport_keeps_files world_decrypt_fails encrypted_file opts_ok before
                  failed.1 failed.2 (surjective_pairing failed))
               [str "tmp"; str "keep"] [1; 2; 3] eq_refl).
Defined.
